(** * Console media tools: the catalog scripts

    A shallow embedding of [catalog_files.py], [update_catalog_locations.py]
    and [find_noncatalog_files.py]: the duplicate scoring and resolution
    policy, the grouping loop, the three scan loops, the reconciliation
    heuristic and the final deletion and commit steps.

    Conventions of the embedding.
    - A Python [str] is a [string]; a character is a code point below 256.
    - A Python [int] is a [Z].  The two places where the scripts go through
      binary64 ([round((a / b) * k)]) are modelled by the nearest integer
      to [k * a / b] with ties to the even neighbour.  Python rounds the
      quotient and the product to binary64 first and can land on the other
      side of a half: for the letters term ([k = 10]) the two agree for
      every file name shorter than 3000 characters; for the prefix term
      ([k = 100]) they agree for paths of fewer than 40 directories and
      differ first at the 23rd prefix of 40 (Python 57, here 58).  In both
      readings a term lies between 0 and [k] and is [k] for [a = b], which
      is all the general statements below use.
    - A Python [dict] is an insertion-ordered association list with unique
      keys ([PyDict]); iteration order is observable in the scripts
      ([catalog.items()] builds the path index, later entries overwrite).
    - An uncaught exception ends the run: fallible code returns [result].
    - The file system answers: [os.path.getsize] and [open] succeed on
      every file [os.walk] lists.  In the scripts a file that has vanished
      or cannot be read raises [OSError], which nothing catches, and the
      run ends in the middle of the scan; such runs are outside the
      embedding, and what is stated of a scan is stated of the runs on
      which every file could be read. *)

From Stdlib Require Import ZArith Ascii String List Lia Bool.
From stdpp Require Import base decidable option list strings gmap.

Local Open Scope Z_scope.

(** ** Exceptions

    The Python exceptions the scripts can die of, [SystemExit] for
    [sys.exit()], and [Blocked], which is no exception: it marks a run that
    is still waiting for a key when the recorded keys are used up. *)

Inductive exn : Type :=
| ZeroDivisionError
| KeyError
| ValueError
| IndexError
| FileNotFoundError
| SystemExit
| Blocked.

Inductive result (A : Type) : Type :=
| Ok (a : A)
| Raise (e : exn).
Arguments Ok {A} a.
Arguments Raise {A} e.

Definition result_bind {A B : Type} (m : result A) (k : A → result B) : result B :=
  match m with
  | Ok a => k a
  | Raise e => Raise e
  end.

#[global] Instance result_ret : MRet result := λ A a, Ok a.
#[global] Instance result_mbind : MBind result := λ A B k m, result_bind m k.

(** [for x in l: ...] over a fallible body, collecting the updated items. *)
Fixpoint for_each {A B : Type} (body : A → result B) (l : list A) : result (list B) :=
  match l with
  | [] => Ok []
  | x :: l' =>
      y ← body x;
      ys ← for_each body l';
      Ok (y :: ys)
  end.

(** ** Python [str] methods used by the scripts *)

Module Str.

Definition len (s : string) : Z := Z.of_nat (String.length s).

(** [s.count(c)] for a one-character [c]. *)
Fixpoint count (c : ascii) (s : string) : Z :=
  match s with
  | EmptyString => 0
  | String a s' => (if decide (a = c) then 1 else 0) + count c s'
  end.

(** [len([c for c in s if pred(c)])]. *)
Fixpoint count_if (pred : ascii → bool) (s : string) : Z :=
  match s with
  | EmptyString => 0
  | String a s' => (if pred a then 1 else 0) + count_if pred s'
  end.

(** [s.lstrip(c)]. *)
Fixpoint lstrip (c : ascii) (s : string) : string :=
  match s with
  | EmptyString => EmptyString
  | String a s' => if decide (a = c) then lstrip c s' else s
  end.

(** [s.rstrip(c)]. *)
Fixpoint rstrip (c : ascii) (s : string) : string :=
  match s with
  | EmptyString => EmptyString
  | String a s' =>
      match rstrip c s' with
      | EmptyString => if decide (a = c) then EmptyString else String a EmptyString
      | t => String a t
      end
  end.

(** [s.split(c)]: never empty, one more chunk than separators. *)
Fixpoint split (c : ascii) (s : string) : list string :=
  match s with
  | EmptyString => [EmptyString]
  | String a s' =>
      if decide (a = c) then EmptyString :: split c s'
      else match split c s' with
           | w :: ws => String a w :: ws
           | [] => [String a EmptyString]
           end
  end.

(** [sep.join(l)]. *)
Fixpoint join (sep : string) (l : list string) : string :=
  match l with
  | [] => EmptyString
  | w :: ws =>
      match ws with
      | [] => w
      | _ :: _ => w +:+ sep +:+ join sep ws
      end
  end.

(** [s.startswith(pre)] and [s.endswith(suf)]. *)
Definition startswith (s pre : string) : bool := String.prefix pre s.

Fixpoint endswith (s suf : string) : bool :=
  if decide (s = suf) then true
  else match s with
       | EmptyString => false
       | String _ s' => endswith s' suf
       end.

(** [s.endswith((suf1, suf2, ...))]. *)
Definition endswith_any (s : string) (sufs : list string) : bool :=
  existsb (endswith s) sufs.

Definition in_range (lo hi : N) (c : ascii) : bool :=
  ((lo <=? N_of_ascii c) && (N_of_ascii c <=? hi))%N.

(** [c.isalpha()] on the code points below 256: the ASCII letters and
    the Latin-1 letters (U+00AA, U+00B5, U+00BA, U+00C0..U+00D6,
    U+00D8..U+00F6, U+00F8..U+00FF). *)
Definition isalpha (c : ascii) : bool :=
  in_range 65 90 c || in_range 97 122 c
  || in_range 170 170 c || in_range 181 181 c || in_range 186 186 c
  || in_range 192 214 c || in_range 216 246 c || in_range 248 255 c.

(** [s.lower()] restricted to what the scripts test: the first
    character of an answer against ['y']. *)
Definition lower_ascii (c : ascii) : ascii :=
  if in_range 65 90 c then ascii_of_N (N_of_ascii c + 32) else c.

End Str.

(** ** [os.path] (posixpath) *)

Module OsPath.

Definition sep : ascii := "/"%char.

(** [p[:i], p[i:]] with [i = p.rfind('/') + 1]. *)
Fixpoint cut_last_sep (p : string) : string * string :=
  match p with
  | EmptyString => (EmptyString, EmptyString)
  | String a p' =>
      let '(h, t) := cut_last_sep p' in
      match h with
      | EmptyString =>
          if decide (a = sep) then (String a EmptyString, p')
          else (EmptyString, String a t)
      | String _ _ => (String a h, t)
      end
  end.

(** [os.path.split(p)]: the head loses its trailing separators unless
    it consists of separators only. *)
Definition split (p : string) : string * string :=
  let '(head, tail) := cut_last_sep p in
  match Str.rstrip sep head with
  | EmptyString => (head, tail)
  | stripped => (stripped, tail)
  end.

(** [os.path.join(a, b)]. *)
Definition join (a b : string) : string :=
  if Str.startswith b "/" then b
  else if decide (a = EmptyString) then b
  else if Str.endswith a "/" then a +:+ b
  else a +:+ "/" +:+ b.

End OsPath.

(** ** Rounding *)

(** [round(num / den)] for [den > 0]: the nearest integer, ties to even. *)
Definition py_round_ratio (num den : Z) : Z :=
  let q := num / den in
  let rm := num mod den in
  if decide (2 * rm < den) then q
  else if decide (den < 2 * rm) then q + 1
  else if Z.even q then q else q + 1.

(** [round((a / b) * k)] on non-negative integers [a], [b]; division by
    zero raises. *)
Definition round_scaled (a b k : Z) : result Z :=
  if decide (b = 0) then Raise ZeroDivisionError
  else Ok (py_round_ratio (a * k) b).

(** ** Python [dict] with [str] keys *)

Module PyDict.
Section Dict.
Context {V : Type}.

(** [d.get(k)]; [d[k]] is [get] with [KeyError] on [None]. *)
Fixpoint get (d : list (string * V)) (k : string) : option V :=
  match d with
  | [] => None
  | (k', v) :: d' => if decide (k' = k) then Some v else get d' k
  end.

(** [k in d]. *)
Definition mem (d : list (string * V)) (k : string) : bool :=
  match get d k with Some _ => true | None => false end.

(** [d[k] = v]: an existing key keeps its place, a new one goes last. *)
Fixpoint set (d : list (string * V)) (k : string) (v : V) : list (string * V) :=
  match d with
  | [] => [(k, v)]
  | (k', v') :: d' =>
      if decide (k' = k) then (k, v) :: d' else (k', v') :: set d' k v
  end.

(** [d[k]]. *)
Definition lookup (d : list (string * V)) (k : string) : result V :=
  match get d k with Some v => Ok v | None => Raise KeyError end.

(** [list(d.keys())]. *)
Definition keys (d : list (string * V)) : list string := d.*1.
End Dict.
End PyDict.

(** ** [catalog_files.py]: records *)

(** An item of [new_data] (and of the WIP document):
    [{'h': hash, 'f': filename, 'p': directory, 's': size}]. *)
Record item : Type := Item {
  i_h : string;
  i_f : string;
  i_p : string;
  i_s : Z
}.

(** A catalog entry, the value stored under a hash:
    [{'f': filename, 'p': directory, 's': size}]. *)
Record entry : Type := Entry {
  e_f : string;
  e_p : string;
  e_s : Z
}.

(** A candidate of a duplicate group:
    [{'fp': full path, 'cat': in the catalog}], to which [AnalyzeDupes]
    adds ['s'] (score) and ['r'] (remove).  A key that is not set yet is
    [None]. *)
Record dupe : Type := Dupe {
  d_fp : string;
  d_cat : bool;
  d_s : option Z;
  d_r : option bool
}.

#[global] Instance item_eq_dec : EqDecision item.
Proof. solve_decision. Defined.
#[global] Instance entry_eq_dec : EqDecision entry.
Proof. solve_decision. Defined.
#[global] Instance dupe_eq_dec : EqDecision dupe.
Proof. solve_decision. Defined.

Definition new_dupe (fp : string) (cat : bool) : dupe :=
  {| d_fp := fp; d_cat := cat; d_s := None; d_r := None |}.

Definition set_s (d : dupe) (score : Z) : dupe :=
  {| d_fp := d_fp d; d_cat := d_cat d; d_s := Some score; d_r := d_r d |}.

Definition set_r (d : dupe) (rem : bool) : dupe :=
  {| d_fp := d_fp d; d_cat := d_cat d; d_s := d_s d; d_r := Some rem |}.

(** [d['s']] and [d['r']]. *)
Definition get_s (d : dupe) : result Z :=
  match d_s d with Some v => Ok v | None => Raise KeyError end.
Definition get_r (d : dupe) : result bool :=
  match d_r d with Some v => Ok v | None => Raise KeyError end.

(** The keep flag shown in the review screen: [not d['r']]. *)
Definition keep (d : dupe) : bool :=
  match d_r d with Some false => true | _ => false end.

Definition item_fullpath (i : item) : string := OsPath.join (i_p i) (i_f i).
Definition entry_fullpath (e : entry) : string := OsPath.join (e_p e) (e_f e).

(** ** What the three scripts share *)

(** [for x in l: st = body(st, x)], stopping at the first exception. *)
Fixpoint for_fold {A S : Type} (body : S → A → result S) (st : S) (l : list A)
    : result S :=
  match l with
  | [] => Ok st
  | x :: l' =>
      st' ← body st x;
      for_fold body st' l'
  end.

(** [ignore_extensions = ('.db', '.bak')]. *)
Definition ignore_extensions : list string := [".db"; ".bak"].

(** [catalog_index]: full path to hash, filled in the order of
    [catalog.items()]. *)
Definition build_catalog_index (catalog : list (string * entry))
    : list (string * string) :=
  foldl (λ idx he, PyDict.set idx (entry_fullpath (snd he)) (fst he)) [] catalog.

(** The files of [os.walk(starting_path)], as [(root, file)] in the order
    of the two nested [for] loops. *)
Definition walk_files (walk : list (string * list string)) : list (string * string) :=
  concat (map (λ rf, map (λ file, (fst rf, file)) (snd rf)) walk).

(** The test that opens every scan loop:
[[
   if fullpath in catalog_index:
       entry = catalog[catalog_index[fullpath]]
       if size == entry['s']: continue
]] *)
Definition unchanged_in_catalog (catalog : list (string * entry))
    (catalog_index : list (string * string)) (fullpath : string) (size : Z)
    : result bool :=
  match PyDict.get catalog_index fullpath with
  | Some h =>
      e ← PyDict.lookup catalog h;
      Ok (bool_decide (size = e_s e))
  | None => Ok false
  end.

(** The state of a scan loop: the records appended so far and, in call
    order, the paths [hash_file] was called on. *)
Record scan_state : Type := ScanState {
  new_data : list item;
  renamed : list item;
  hashed : list string
}.

(** The file system as the scans read it: the bytes behind each path and
    the digest [hash_file] computes from them (xxh64 over the blocks). *)
Record file_env : Type := FileEnv {
  content : string → list Byte.byte;
  xxh64_hexdigest : list Byte.byte → string
}.

(** [os.path.getsize(fullpath)], for a file that is there. *)
Definition getsize (env : file_env) (fullpath : string) : Z :=
  Z.of_nat (length (content env fullpath)).

(** [hash_file(fpath)], for a file that can be read: the digest of all
    its blocks. *)
Definition hash_file (env : file_env) (fpath : string) : string :=
  xxh64_hexdigest env (content env fpath).

(** ** [catalog_files.py]: scoring and resolution *)

Module CatalogFiles.

(** The character class [[a-zA-Z0-9\._\-]] of [IsPortableFilename]. *)
Definition portable_char (c : ascii) : bool :=
  Str.in_range 97 122 c || Str.in_range 65 90 c || Str.in_range 48 57 c
  || bool_decide (c = "."%char) || bool_decide (c = "_"%char)
  || bool_decide (c = "-"%char).

(** [re.match("[^a-zA-Z0-9\._\-]", tail) is not None]: [re.match]
    anchors at the start of [tail] and the pattern is one negated
    class, so only the first character is looked at. *)
Definition re_match_nonportable (tail : string) : bool :=
  match tail with
  | EmptyString => false
  | String c _ => negb (portable_char c)
  end.

Definition IsPortableFilename (fname : string) : bool :=
  let '(head, tail) := OsPath.split fname in
  negb (re_match_nonportable tail).

(** [p.lstrip('/').split('/')]. *)
Definition path_chunks (p : string) : list string :=
  Str.split OsPath.sep (Str.lstrip OsPath.sep p).

(** ["/" + "/".join(p_chunks[0:c+1])]. *)
Definition test_path (p_chunks : list string) (c : nat) : string :=
  "/" +:+ Str.join "/" (take (S c) p_chunks).

(** One turn of [for c in range(num_chunks)]; [num_chunks] is positive
    inside the loop, so the division cannot fail. *)
Definition prefix_step (dr_favored_paths : list string) (p_chunks : list string)
    (score : Z) (c : nat) : Z :=
  if bool_decide (test_path p_chunks c ∈ dr_favored_paths)
  then score + py_round_ratio ((Z.of_nat c + 1) * 100) (Z.of_nat (length p_chunks))
  else score.

(** The body of the first inner loop of [AnalyzeDupes]: the score of
    one candidate. *)
Definition score_dupe (dr_favored_paths : list string) (d : dupe) : result Z :=
  let '(p, f) := OsPath.split (d_fp d) in
  let score := 0 in
  let score := score + (15 - Str.count OsPath.sep (d_fp d)) in
  let score := if d_cat d then score + 5 else score in
  letters ← round_scaled (Str.count_if Str.isalpha f) (Str.len f) 10;
  let score := score + letters in
  let score := if IsPortableFilename (d_fp d) then score + 4 else score in
  if bool_decide (d_fp d ∈ dr_favored_paths) then Ok (score + 1000)
  else
    let p_chunks := path_chunks p in
    Ok (foldl (prefix_step dr_favored_paths p_chunks) score
              (seq 0 (length p_chunks))).

(** The loop indices [c] whose [test_path] is a favored path. *)
Definition matching_prefixes (dr_favored_paths : list string) (p : string)
    : list nat :=
  filter (λ c, test_path (path_chunks p) c ∈ dr_favored_paths)
         (seq 0 (length (path_chunks p))).

(** What the [else] branch adds to the score. *)
Definition prefix_bonus (dr_favored_paths : list string) (p : string) : Z :=
  foldl (prefix_step dr_favored_paths (path_chunks p)) 0
        (seq 0 (length (path_chunks p))).

(** The second inner loop: [(highest_score, highest_index)], updated
    on a strictly greater score only. *)
Fixpoint highest_from (i2 : nat) (dupes : list dupe)
    (highest_score : Z) (highest_index : nat) : result (Z * nat) :=
  match dupes with
  | [] => Ok (highest_score, highest_index)
  | d :: rest =>
      sc ← get_s d;
      if decide (sc > highest_score)
      then highest_from (S i2) rest sc i2
      else highest_from (S i2) rest highest_score highest_index
  end.

(** The third inner loop: [duplicates[i][i2]['r'] = (i2 != highest_index)]. *)
Definition mark_removals (highest_index : nat) (dupes : list dupe) : list dupe :=
  imap (λ i2 d, set_r d (negb (Nat.eqb i2 highest_index))) dupes.

(** The body of the outer loop, on one group. *)
Definition AnalyzeGroup (dr_favored_paths : list string) (dupes : list dupe)
    : result (list dupe) :=
  scored ← for_each (λ d, sc ← score_dupe dr_favored_paths d; Ok (set_s d sc)) dupes;
  hi ← highest_from 0 scored 0 0;
  Ok (mark_removals (snd hi) scored).

Definition AnalyzeDupes (dr_favored_paths : list string)
    (duplicates : list (list dupe)) : result (list (list dupe)) :=
  for_each (AnalyzeGroup dr_favored_paths) duplicates.

(** [RemoveDupes]: every candidate flagged ['r'] is appended to
    [to_be_removed]. *)
Fixpoint RemoveDupes_group (to_be_removed : list string) (dupes : list dupe)
    : result (list string) :=
  match dupes with
  | [] => Ok to_be_removed
  | d :: rest =>
      rem ← get_r d;
      RemoveDupes_group
        (if rem : bool then to_be_removed ++ [d_fp d] else to_be_removed) rest
  end.

Fixpoint RemoveDupes (to_be_removed : list string) (duplicates : list (list dupe))
    : result (list string) :=
  match duplicates with
  | [] => Ok to_be_removed
  | dupes :: rest =>
      tbr ← RemoveDupes_group to_be_removed dupes;
      RemoveDupes tbr rest
  end.

(** *** The scan loop *)

Definition same_location (c : entry) (it : item) : bool :=
  bool_decide (e_f c = i_f it) && bool_decide (e_p c = i_p it)
  && bool_decide (e_s c = i_s it).

(** The body of [for file in files], for one [(root, file)]. *)
Definition scan_file (env : file_env) (catalog : list (string * entry))
    (catalog_index : list (string * string))
    (st : scan_state) (rf : string * string) : result scan_state :=
  let '(root, file) := rf in
  if Str.endswith_any file ignore_extensions then Ok st
  else
    let fullpath := OsPath.join root file in
    let size := getsize env fullpath in
    skip ← unchanged_in_catalog catalog catalog_index fullpath size;
    if skip : bool then Ok st
    else if existsb (λ i, bool_decide (item_fullpath i = fullpath)) (new_data st)
    then Ok st
    else
      let hash := hash_file env fullpath in
      let log := hashed st ++ [fullpath] in
      let it := {| i_h := hash; i_f := file; i_p := root; i_s := size |} in
      match PyDict.get catalog hash with
      | Some c =>
          if same_location c it
          then Ok {| new_data := new_data st; renamed := renamed st; hashed := log |}
          else Ok {| new_data := new_data st ++ [it]; renamed := renamed st;
                     hashed := log |}
      | None =>
          Ok {| new_data := new_data st ++ [it]; renamed := renamed st;
                hashed := log |}
      end.

(** The whole traversal, started from the records of the WIP document.
    The timed checkpoints inside the loop rewrite the WIP document with
    the list built so far; the write after the loop replaces them, so
    only that one is kept in the model. *)
Definition scan (env : file_env) (catalog : list (string * entry))
    (wip : list item) (walk : list (string * list string)) : result scan_state :=
  for_fold (scan_file env catalog (build_catalog_index catalog))
           {| new_data := wip; renamed := []; hashed := [] |}
           (walk_files walk).

(** *** The duplicate identification loop *)

Record group_state : Type := GroupState {
  dupes : list string;
  to_be_removed : list string;
  duplicates : list (list dupe)
}.

(** [matching]: the records of [new_data] with this hash whose path is
    not accounted for yet. *)
Definition matching_of (new_data : list item) (hash : string) (dupes : list string)
    : list dupe :=
  map (λ i, new_dupe (item_fullpath i) false)
      (filter (λ i, i_h i = hash ∧ item_fullpath i ∉ dupes) new_data).

(** The part of the loop body after [catalog_item] is known;
    [catalog_item = None] is the empty dict. *)
Definition close_group (remove_catalog_dupes : bool) (new_data : list item)
    (st : group_state) (hash : string) (catalog_item : option dupe) : group_state :=
  let duplicates_item :=
    match catalog_item with
    | Some ci => if remove_catalog_dupes then [ci] else []
    | None => []
    end in
  let matching := matching_of new_data hash (dupes st) in
  if bool_decide (length matching < 2)%nat && bool_decide (catalog_item = None)
  then st
  else {| dupes := dupes st ++ map d_fp matching;
          to_be_removed := to_be_removed st;
          duplicates := duplicates st ++ [duplicates_item ++ matching] |}.

(** The body of [for file in new_data]. *)
Definition identify_step (remove_catalog_dupes : bool)
    (catalog : list (string * entry)) (disk : gset string) (new_data : list item)
    (st : group_state) (file : item) : group_state :=
  let hash := i_h file in
  let fullpath := item_fullpath file in
  if bool_decide (fullpath ∈ dupes st) then st
  else
    match PyDict.get catalog hash with
    | Some o =>
        let cat_fp := entry_fullpath o in
        if negb (bool_decide (cat_fp ∈ disk))
        then {| dupes := dupes st;
                to_be_removed := to_be_removed st ++ [fullpath];
                duplicates := duplicates st |}
        else close_group remove_catalog_dupes new_data st hash
                         (Some (new_dupe cat_fp true))
    | None => close_group remove_catalog_dupes new_data st hash None
    end.

Definition identify_duplicates (remove_catalog_dupes : bool)
    (catalog : list (string * entry)) (disk : gset string) (new_data : list item)
    : group_state :=
  foldl (identify_step remove_catalog_dupes catalog disk new_data)
        {| dupes := []; to_be_removed := []; duplicates := [] |}
        new_data.

(** *** The review loop *)

(** A key press together with what the dialog it opens returns. *)
Inductive command : Type :=
| KeyQuit (r : string)            (* esc or q, then the selection of "Quit?" *)
| KeyFavor (favored_path : string) (* f, then the text of the input box *)
| KeyUnfavor (rem_path : string)   (* r, then the selected entry *)
| KeyDone (r : string)            (* d, then the selection *)
| KeyMove                         (* up, down, pgup, pgdn, home, end *)
| KeyOther.

(** [l.remove(x)]. *)
Fixpoint list_remove (x : string) (l : list string) : result (list string) :=
  match l with
  | [] => Raise ValueError
  | y :: l' =>
      if decide (y = x) then Ok l'
      else l'' ← list_remove x l'; Ok (y :: l'')
  end.

Definition CountDupeIndexes (duplicates : list (list dupe)) : nat :=
  foldl (λ c dupes, (c + length dupes)%nat) 0%nat duplicates.

(** [while True: key = getKey() ...] over the keys typed; a review whose
    keys run out before it is left is still waiting ([Blocked]).  The
    cursor position is not part of the model. *)
Fixpoint review (dupe_count : nat) (keys : list command)
    (dr_favored_paths : list string) (duplicates : list (list dupe))
    : result (list string * list (list dupe)) :=
  match keys with
  | [] => Raise Blocked
  | key :: rest =>
      match key with
      | KeyQuit r =>
          if decide (r = "Yes") then Raise SystemExit
          else review dupe_count rest dr_favored_paths duplicates
      | KeyFavor favored_path =>
          if decide (dupe_count = 0%nat)
          then review dupe_count rest dr_favored_paths duplicates
          else
            let favored :=
              if decide (favored_path = "") then dr_favored_paths
              else dr_favored_paths ++ [favored_path] in
            duplicates' ← AnalyzeDupes favored duplicates;
            review dupe_count rest favored duplicates'
      | KeyUnfavor rem_path =>
          if decide (dupe_count = 0%nat)
          then review dupe_count rest dr_favored_paths duplicates
          else
            favored ← (if decide (rem_path = "(none)") then Ok dr_favored_paths
                       else list_remove rem_path dr_favored_paths);
            duplicates' ← AnalyzeDupes favored duplicates;
            review dupe_count rest favored duplicates'
      | KeyDone r =>
          if decide (dupe_count = 0%nat)
          then review dupe_count rest dr_favored_paths duplicates
          else if decide (r = "Yes") then Ok (dr_favored_paths, duplicates)
          else review dupe_count rest dr_favored_paths duplicates
      | KeyMove | KeyOther =>
          review dupe_count rest dr_favored_paths duplicates
      end
  end.

(** *** Deletion and commit *)

Inductive event : Type :=
| DumpWip (records : list item)            (* json.dump(new_data, wipfile) *)
| AskRemove (n : nat)                      (* input('Do you want to remove ...') *)
| Removed (f : string)                     (* os.remove(f) *)
| AskCommit (n : nat)                      (* input('Do you want to add ...') *)
| AlreadyInCatalog (h f : string)          (* print('Hash ... is already in the catalog!') *)
| Added (n : nat)                          (* print('Added n new files to the catalog.') *)
| DumpCatalog (catalog : list (string * entry))  (* json.dump(catalog, catalogfile) *)
| RemoveWip.                               (* os.remove(wip_db_path) *)

(** [input(...).lower()] followed by [choice[0] == 'y']. *)
Definition answered_yes (choice : string) : result bool :=
  match choice with
  | EmptyString => Raise IndexError
  | String c _ => Ok (bool_decide (Str.lower_ascii c = "y"%char))
  end.

(** [if os.path.exists(f): os.remove(f)], on the disk and the messages. *)
Definition delete_one (acc : gset string * list event) (f : string)
    : gset string * list event :=
  if bool_decide (f ∈ fst acc)
  then (fst acc ∖ {[f]}, snd acc ++ [Removed f])
  else acc.

(** [for f in to_be_removed: ...]. *)
Definition delete_files (to_be_removed : list string) (disk : gset string)
    : gset string * list event :=
  foldl delete_one (disk, []) to_be_removed.

Definition deletion_step (to_be_removed : list string) (disk : gset string)
    (remove_answer : string) : result (gset string * list event) :=
  if decide (0 < length to_be_removed)%nat then
    yes ← answered_yes remove_answer;
    if yes : bool then
      let '(disk', removed) := delete_files to_be_removed disk in
      Ok (disk', AskRemove (length to_be_removed) :: removed)
    else Ok (disk, [AskRemove (length to_be_removed)])
  else Ok (disk, []).

(** [new_cat_entries]. *)
Definition new_cat_entries_of (new_data : list item) (to_be_removed : list string)
    : list item :=
  filter (λ i, item_fullpath i ∉ to_be_removed) new_data.

(** The body of [for i in new_cat_entries], on the catalog and the
    messages printed. *)
Definition commit_one (acc : list (string * entry) * list event) (i : item)
    : list (string * entry) * list event :=
  if PyDict.mem (fst acc) (i_h i)
  then (fst acc, snd acc ++ [AlreadyInCatalog (i_h i) (i_f i)])
  else (PyDict.set (fst acc) (i_h i)
          {| e_f := i_f i; e_p := i_p i; e_s := i_s i |},
        snd acc).

Definition commit_entries (catalog : list (string * entry))
    (new_cat_entries : list item) : list (string * entry) * list event :=
  foldl commit_one (catalog, []) new_cat_entries.

(** [os.remove(wip_db_path)]. *)
Definition remove_wip (wip_db_path : string) (disk : gset string)
    : result (gset string) :=
  if bool_decide (wip_db_path ∈ disk) then Ok (disk ∖ {[wip_db_path]})
  else Raise FileNotFoundError.

Definition commit_step (wip_db_path : string) (catalog : list (string * entry))
    (new_data : list item) (to_be_removed : list string) (disk : gset string)
    (commit_answer : string)
    : result (list (string * entry) * gset string * list event) :=
  let new_cat_entries := new_cat_entries_of new_data to_be_removed in
  if decide (0 < length new_cat_entries)%nat then
    yes ← answered_yes commit_answer;
    if yes : bool then
      let '(catalog', msgs) := commit_entries catalog new_cat_entries in
      disk' ← remove_wip wip_db_path disk;
      Ok (catalog', disk',
          AskCommit (length new_cat_entries) :: msgs
            ++ [Added (length new_cat_entries); DumpCatalog catalog'; RemoveWip])
    else Ok (catalog, disk, [AskCommit (length new_cat_entries)])
  else
    disk' ← remove_wip wip_db_path disk;
    Ok (catalog, disk', [RemoveWip]).

(** *** The script, from the traversal on *)

Record input : Type := Input {
  in_walk : list (string * list string);
  in_keys : list command;
  in_remove_answer : string;
  in_commit_answer : string
}.

(** The globals and the disk when the script ends. *)
Record run : Type := Run {
  r_new_data : list item;
  r_hashed : list string;
  r_duplicates : list (list dupe);
  r_dr_favored_paths : list string;
  r_to_be_removed : list string;
  r_catalog : list (string * entry);
  r_disk : gset string;
  r_trace : list event
}.

(** The review, entered only when there are duplicates, followed by
    [RemoveDupes]. *)
Definition review_session (keys : list command) (g : group_state)
    : result (list string * list (list dupe) * list string) :=
  if decide (0 < length (duplicates g))%nat then
    analysed ← AnalyzeDupes [] (duplicates g);
    let dupe_count := CountDupeIndexes analysed in
    fd ← review dupe_count keys [] analysed;
    tbr ← RemoveDupes (to_be_removed g) (snd fd);
    Ok (fst fd, snd fd, tbr)
  else Ok ([], duplicates g, to_be_removed g).

(** The globals and the disk when the deletion step is over. *)
Record reviewed : Type := Reviewed {
  v_new_data : list item;
  v_hashed : list string;
  v_duplicates : list (list dupe);
  v_dr_favored_paths : list string;
  v_to_be_removed : list string;
  v_disk : gset string;
  v_trace : list event
}.

(** Traversal, WIP checkpoint, identification, review, deletion. *)
Definition up_to_deletion (remove_catalog_dupes : bool) (wip_db_path : string)
    (env : file_env) (catalog : list (string * entry)) (wip : list item)
    (disk : gset string) (inp : input) : result reviewed :=
  st ← scan env catalog wip (in_walk inp);
  let disk1 := disk ∪ {[wip_db_path]} in
  let g := identify_duplicates remove_catalog_dupes catalog disk1 (new_data st) in
  rs ← review_session (in_keys inp) g;
  let '(favored, dups, tbr) := rs in
  del ← deletion_step tbr disk1 (in_remove_answer inp);
  let '(disk2, removed) := del in
  Ok {| v_new_data := new_data st;
        v_hashed := hashed st;
        v_duplicates := dups;
        v_dr_favored_paths := favored;
        v_to_be_removed := tbr;
        v_disk := disk2;
        v_trace := DumpWip (new_data st) :: removed |}.

Definition main (remove_catalog_dupes : bool) (wip_db_path : string)
    (env : file_env) (catalog : list (string * entry)) (wip : list item)
    (disk : gset string) (inp : input) : result run :=
  v ← up_to_deletion remove_catalog_dupes wip_db_path env catalog wip disk inp;
  fin ← commit_step wip_db_path catalog (v_new_data v) (v_to_be_removed v)
                    (v_disk v) (in_commit_answer inp);
  let '(catalog', disk3, committed) := fin in
  Ok {| r_new_data := v_new_data v;
        r_hashed := v_hashed v;
        r_duplicates := v_duplicates v;
        r_dr_favored_paths := v_dr_favored_paths v;
        r_to_be_removed := v_to_be_removed v;
        r_catalog := catalog';
        r_disk := disk3;
        r_trace := v_trace v ++ committed |}.

End CatalogFiles.

(** ** [update_catalog_locations.py] *)

Module UpdateCatalogLocations.

(** [catalog_list]: the catalog in the format of [new_data]. *)
Definition build_catalog_list (catalog : list (string * entry)) : list item :=
  map (λ he, {| i_h := fst he; i_f := e_f (snd he); i_p := e_p (snd he);
                i_s := e_s (snd he) |}) catalog.

(** [subset] and [ss2] of [FindHashByFileAndSize]. *)
Definition same_size (catalog_list : list item) (size : Z) : list item :=
  filter (λ i, i_s i = size) catalog_list.

Definition gone_from_disk (disk : gset string) (subset : list item) : list item :=
  filter (λ i, item_fullpath i ∉ disk) subset.

(** [FindHashByFileAndSize(file, path, size)]; [file] and [path] are not
    used by the body. *)
Definition FindHashByFileAndSize (catalog_list : list item) (disk : gset string)
    (file path : string) (size : Z) : string :=
  let subset := same_size catalog_list size in
  match subset with
  | [only] => i_h only
  | _ =>
      let ss2 := gone_from_disk disk subset in
      match ss2 with
      | [only] => i_h only
      | _ => ""
      end
  end.

(** [catalog[hash] == item]: the catalog value has the keys f, p, s and
    the item has h, f, p, s; two dicts with different key sets are never
    equal. *)
Definition entry_equals_item (c : entry) (it : item) : bool := false.

Definition scan_file (env : file_env) (disk : gset string)
    (catalog : list (string * entry)) (catalog_index : list (string * string))
    (catalog_list : list item)
    (st : scan_state) (rf : string * string) : result scan_state :=
  let '(root, file) := rf in
  if Str.endswith_any file ignore_extensions then Ok st
  else
    let fullpath := OsPath.join root file in
    let size := getsize env fullpath in
    skip ← unchanged_in_catalog catalog catalog_index fullpath size;
    if skip : bool then Ok st
    else
      let found := FindHashByFileAndSize catalog_list disk file root size in
      let '(hash, log) :=
        if decide (found = "")
        then (hash_file env fullpath, hashed st ++ [fullpath])
        else (found, hashed st) in
      let it := {| i_h := hash; i_f := file; i_p := root; i_s := size |} in
      match PyDict.get catalog hash with
      | Some c =>
          if entry_equals_item c it
          then Ok {| new_data := new_data st; renamed := renamed st; hashed := log |}
          else Ok {| new_data := new_data st ++ [it]; renamed := renamed st;
                     hashed := log |}
      | None =>
          Ok {| new_data := new_data st ++ [it]; renamed := renamed st;
                hashed := log |}
      end.

Definition scan (env : file_env) (disk : gset string)
    (catalog : list (string * entry)) (walk : list (string * list string))
    : result scan_state :=
  for_fold (scan_file env disk catalog (build_catalog_index catalog)
                      (build_catalog_list catalog))
           {| new_data := []; renamed := []; hashed := [] |}
           (walk_files walk).

End UpdateCatalogLocations.

(** ** [find_noncatalog_files.py] *)

Module FindNoncatalogFiles.

Definition scan_file (env : file_env) (catalog : list (string * entry))
    (catalog_index : list (string * string))
    (st : scan_state) (rf : string * string) : result scan_state :=
  let '(root, file) := rf in
  if Str.endswith_any file ignore_extensions then Ok st
  else
    let fullpath := OsPath.join root file in
    let size := getsize env fullpath in
    skip ← unchanged_in_catalog catalog catalog_index fullpath size;
    if skip : bool then Ok st
    else
      let hash := hash_file env fullpath in
      let log := hashed st ++ [fullpath] in
      let it := {| i_h := hash; i_f := file; i_p := root; i_s := size |} in
      if PyDict.mem catalog hash
      then Ok {| new_data := new_data st; renamed := renamed st ++ [it];
                 hashed := log |}
      else Ok {| new_data := new_data st ++ [it]; renamed := renamed st;
                 hashed := log |}.

Definition scan (env : file_env) (catalog : list (string * entry))
    (walk : list (string * list string)) : result scan_state :=
  for_fold (scan_file env catalog (build_catalog_index catalog))
           {| new_data := []; renamed := []; hashed := [] |}
           (walk_files walk).

End FindNoncatalogFiles.

(** ** The score as the specification words it *)

Module Spec.

(** "filename matches [[A-Za-z0-9._-]+] exactly". *)
Fixpoint all_portable (f : string) : bool :=
  match f with
  | EmptyString => true
  | String c f' => CatalogFiles.portable_char c && all_portable f'
  end.

Definition matches_portable_class (f : string) : bool :=
  negb (bool_decide (f = "")) && all_portable f.

(** "favoredBonus": +1000 for an exact rule, else
    [round(100*(c+1)/n)] for the directory prefix at depth [c] of [n]
    that is in the favored set, else 0. *)
Definition favoredBonus (fullPath : string) (favoredPaths : list string) : Z :=
  if bool_decide (fullPath ∈ favoredPaths) then 1000
  else
    let chunks := CatalogFiles.path_chunks (fst (OsPath.split fullPath)) in
    let n := length chunks in
    foldl (λ bonus c,
             if bool_decide (CatalogFiles.test_path chunks c ∈ favoredPaths)
             then bonus + py_round_ratio (100 * (Z.of_nat c + 1)) (Z.of_nat n)
             else bonus)
          0 (seq 0 n).

(** "(15 - numPathSeparators) + 5 if catalog-origin
     + round(10 * lettersInName / nameLength)
     + 4 if the filename matches + favoredBonus". *)
Definition score (d : dupe) (favoredPaths : list string) : Z :=
  let f := snd (OsPath.split (d_fp d)) in
  (15 - Str.count OsPath.sep (d_fp d))
  + (if d_cat d then 5 else 0)
  + py_round_ratio (10 * Str.count_if Str.isalpha f) (Str.len f)
  + (if matches_portable_class f then 4 else 0)
  + favoredBonus (d_fp d) favoredPaths.

End Spec.

(** [f(m)] under [Ok]. *)
Definition result_map {A B : Type} (f : A → B) (m : result A) : result B :=
  match m with
  | Ok a => Ok (f a)
  | Raise e => Raise e
  end.

(** ** Concrete inputs used below *)

Module Examples.

(** ["/d/d/.../d"], [n] directories deep. *)
Fixpoint deep_dir (n : nat) : string :=
  match n with
  | O => ""
  | S n' => "/d" +:+ deep_dir n'
  end.

(** Two copies of one file, 20 and 19 directories deep. *)
Definition deeper : dupe := new_dupe (deep_dir 20 +:+ "/1") false.
Definition shallower : dupe := new_dupe (deep_dir 19 +:+ "/1") false.

(** A file name with a space after a portable first character. *)
Definition spaced : dupe := new_dupe "/a/f o.txt" false.

(** A copy 20 directories deep, every directory above it favored
    (["/d"], ["/d/d"], ...), and a copy in the root directory. *)
Definition nested_rules : list string := map deep_dir (seq 1 20).
Definition nested : dupe := new_dupe (deep_dir 20 +:+ "/f") false.
Definition chosen : dupe := new_dupe "/f" false.

(** The example scenario: [/a/foo.txt] and [/b/foo.txt], both holding
    the five bytes of "hello", an empty catalog, no WIP document. *)
Definition foo_a : dupe := new_dupe "/a/foo.txt" false.
Definition foo_b : dupe := new_dupe "/b/foo.txt" false.

Definition hello : list Byte.byte := String.list_byte_of_string "hello".

Definition hello_env (hexdigest : list Byte.byte → string) : file_env :=
  {| content := λ fpath,
       if bool_decide (fpath ∈ ["/a/foo.txt"; "/b/foo.txt"]) then hello else [];
     xxh64_hexdigest := hexdigest |}.

Definition hello_walk : list (string * list string) :=
  [("/", []); ("/a", ["foo.txt"]); ("/b", ["foo.txt"])].

Definition hello_disk : gset string := {["/a/foo.txt"; "/b/foo.txt"]}.

Definition hello_input : CatalogFiles.input :=
  {| CatalogFiles.in_walk := hello_walk;
     CatalogFiles.in_keys := [CatalogFiles.KeyDone "Yes"];
     CatalogFiles.in_remove_answer := "y";
     CatalogFiles.in_commit_answer := "y" |}.

Definition wip_db_path : string := OsPath.join "/home/u" "wip.db".

(** One scanned copy [/d/x] of a file the catalog knows as [/c/x]. *)
Definition one_entry : list (string * entry) :=
  [("9a2c", {| e_f := "x"; e_p := "/c"; e_s := 5 |})].

Definition copy_env : file_env :=
  {| content := λ _, hello; xxh64_hexdigest := λ _, "9a2c" |}.

Definition copy_walk : list (string * list string) := [("/d", ["x"])].

(** The disk when [/c/x] is still there, and when it is gone. *)
Definition both_on_disk : gset string := {["/c/x"; "/d/x"]}.
Definition original_gone : gset string := {["/d/x"]}.

Definition copy_record : item :=
  {| i_h := "9a2c"; i_f := "x"; i_p := "/d"; i_s := 5 |}.

(** A catalog with two entries of size 5; [/c/x] was moved to [/d/x],
    [/c/y] is where the catalog says. *)
Definition two_of_a_size : list (string * entry) :=
  [("a1b2", {| e_f := "x"; e_p := "/c"; e_s := 5 |});
   ("c3d4", {| e_f := "y"; e_p := "/c"; e_s := 5 |})].

Definition moved_disk : gset string := {["/c/y"; "/d/x"]}.

(** A tree where [/c/x] is as the catalog [one_entry] has it. *)
Definition catalogued_walk : list (string * list string) :=
  [("/c", ["x"]); ("/d", ["x"])].

(** Where the run on [original_gone] stands after the deletion step. *)
Definition orphan_reviewed : CatalogFiles.reviewed :=
  {| CatalogFiles.v_new_data := [copy_record];
     CatalogFiles.v_hashed := ["/d/x"];
     CatalogFiles.v_duplicates := [];
     CatalogFiles.v_dr_favored_paths := [];
     CatalogFiles.v_to_be_removed := ["/d/x"];
     CatalogFiles.v_disk := {[wip_db_path]};
     CatalogFiles.v_trace :=
       [CatalogFiles.DumpWip [copy_record]; CatalogFiles.AskRemove 1;
        CatalogFiles.Removed "/d/x"] |}.

(** How the run on [original_gone] ends. *)
Definition orphan_run : CatalogFiles.run :=
  {| CatalogFiles.r_new_data := [copy_record];
     CatalogFiles.r_hashed := ["/d/x"];
     CatalogFiles.r_duplicates := [];
     CatalogFiles.r_dr_favored_paths := [];
     CatalogFiles.r_to_be_removed := ["/d/x"];
     CatalogFiles.r_catalog := one_entry;
     CatalogFiles.r_disk := ∅;
     CatalogFiles.r_trace :=
       [CatalogFiles.DumpWip [copy_record]; CatalogFiles.AskRemove 1;
        CatalogFiles.Removed "/d/x"; CatalogFiles.RemoveWip] |}.

Definition copy_input : CatalogFiles.input :=
  {| CatalogFiles.in_walk := copy_walk;
     CatalogFiles.in_keys := [CatalogFiles.KeyDone "Yes"];
     CatalogFiles.in_remove_answer := "y";
     CatalogFiles.in_commit_answer := "y" |}.

End Examples.

(** ** Vocabulary of the statements *)

(** The catalog-origin and the scan-origin candidates of a group. *)
Definition cat_origin (g : list dupe) : list dupe := filter (λ d, d_cat d = true) g.
Definition scan_origin (g : list dupe) : list dupe := filter (λ d, d_cat d = false) g.

(** What holds of every group the identification loop appends, for a
    given setting of [remove_catalog_dupes]. *)
Definition group_shape (remove_catalog_dupes : bool)
    (catalog : list (string * entry)) (disk : gset string) (new_data : list item)
    (g : list dupe) : Prop :=
  (length (cat_origin g) ≤ 1)%nat
  ∧ (1 ≤ length (scan_origin g))%nat
  ∧ (remove_catalog_dupes = true → (2 ≤ length g)%nat)
  ∧ (remove_catalog_dupes = false →
       cat_origin g = []
       ∧ (length g = 1%nat →
            ∃ i o, i ∈ new_data ∧ map d_fp g = [item_fullpath i]
                   ∧ PyDict.get catalog (i_h i) = Some o
                   ∧ entry_fullpath o ∈ disk)).

(** The full paths of the candidates whose keep flag is false, in the
    order of the groups. *)
Definition flagged_paths (duplicates : list (list dupe)) : list string :=
  map d_fp (filter (λ d, keep d = false) (concat duplicates)).

(** A scan left [fullpath] alone: [hash_file] was not called on it and
    none of the records added to the [wip] ones is a record of it. *)
Definition left_alone (fullpath : string) (wip : list item) (st : scan_state) : Prop :=
  (fullpath ∉ hashed st)
  ∧ (∃ produced, new_data st = wip ++ produced
                 ∧ Forall (λ i, item_fullpath i ≠ fullpath) produced)
  ∧ Forall (λ i, item_fullpath i ≠ fullpath) (renamed st).

(** [update_catalog_locations.py]: a walked file that is neither ignored
    nor skipped, and the hash it is recorded with. *)
Definition examined (env : file_env) (catalog : list (string * entry))
    (rf : string * string) : Prop :=
  Str.endswith_any (snd rf) ignore_extensions = false
  ∧ unchanged_in_catalog catalog (build_catalog_index catalog)
      (OsPath.join (fst rf) (snd rf))
      (getsize env (OsPath.join (fst rf) (snd rf))) = Ok false.


(** A name that passed the extension filter as far as [.db] goes. *)
Definition not_db (name : string) : Prop := Str.endswith name ".db" = false.

(** The score of a candidate is set and at most [v] (resp. below [v]). *)
Definition scored_le (v : Z) (d : dupe) : Prop := ∃ sc, d_s d = Some sc ∧ sc ≤ v.
Definition scored_lt (v : Z) (d : dupe) : Prop := ∃ sc, d_s d = Some sc ∧ sc < v.

(** ** [catalog_files.py]: the review screen's index arithmetic and dialogs *)

Module ReviewUI.

(** [DupeIndexTo2D(idx)]: a flat index into the groups as [(i, i2)];
    [(-1, -1)] when the groups are used up. *)
Fixpoint DupeIndexTo2D_from (i : Z) (duplicates : list (list dupe)) (idx : Z)
    : Z * Z :=
  match duplicates with
  | [] => (-1, -1)
  | dupes :: rest =>
      let ld := Z.of_nat (length dupes) in
      if decide (ld > idx) then (i, idx)
      else DupeIndexTo2D_from (i + 1) rest (idx - ld)
  end.

Definition DupeIndexTo2D (duplicates : list (list dupe)) (idx : Z) : Z * Z :=
  DupeIndexTo2D_from 0 duplicates idx.

(** [key.lower()], for the comparison with the key names. *)
Fixpoint lower (key : string) : string :=
  match key with
  | EmptyString => EmptyString
  | String c key' => String (Str.lower_ascii c) (lower key')
  end.

(** The key loop of [MakeSelection(title, itemlist, WWIDTH, WHEIGHT)],
    from [current_item] on; what it draws is left out.  A selection whose
    keys run out is still waiting. *)
Fixpoint MakeSelection_from (itemlist : list string) (current_item : nat)
    (keys : list string) : result string :=
  match keys with
  | [] => Raise Blocked
  | key :: rest =>
      let key := lower key in
      if decide (key = "up") then
        MakeSelection_from itemlist
          (if decide (0 < current_item)%nat then (current_item - 1)%nat
           else current_item) rest
      else if decide (key = "down") then
        MakeSelection_from itemlist
          (if decide (Z.of_nat current_item < Z.of_nat (length itemlist) - 1)
           then (current_item + 1)%nat else current_item) rest
      else if decide (key = String "013"%char "") then
        match itemlist !! current_item with
        | Some it => Ok it
        | None => Raise IndexError
        end
      else if decide (key = "esc") then Ok ""
      else MakeSelection_from itemlist current_item rest
  end.

Definition MakeSelection (itemlist : list string) (keys : list string)
    : result string :=
  MakeSelection_from itemlist 0 keys.

(** The dialog of the key [r]:
    [MakeSelection("Select favored path to remove", ['(none)'] + dr_favored_paths, 50, 10)]. *)
Definition unfavor_dialog (dr_favored_paths : list string) (keys : list string)
    : result string :=
  MakeSelection ("(none)" :: dr_favored_paths) keys.

End ReviewUI.

(** ** [update_catalog_locations.py]: the duplicate check and the update *)

Module UpdateLocations.

(** The body of [for file in new_data] of the duplicate check, on
    [duplicates_found]. *)
Definition flag_step (catalog : list (string * entry)) (new_data : list item)
    (duplicates_found : list string) (file : item) : list string :=
  if negb (PyDict.mem catalog (i_h file)) then duplicates_found
  else
    let matching :=
      filter (λ i, i_h i = i_h file ∧ item_fullpath i ∉ duplicates_found) new_data in
    if decide (length matching < 2)%nat then duplicates_found
    else duplicates_found ++ map item_fullpath matching.

Definition find_duplicates (catalog : list (string * entry)) (new_data : list item)
    : list string :=
  foldl (flag_step catalog new_data) [] new_data.

(** The body of the update loop, on the catalog and [upd_files]. *)
Definition update_one (duplicates_found : list string)
    (acc : list (string * entry) * nat) (i : item) : list (string * entry) * nat :=
  if bool_decide (item_fullpath i ∉ duplicates_found) then
    if PyDict.mem (fst acc) (i_h i)
    then (PyDict.set (fst acc) (i_h i)
            {| e_f := i_f i; e_p := i_p i; e_s := i_s i |},
          S (snd acc))
    else acc
  else acc.

Definition update_catalog (catalog : list (string * entry)) (new_data : list item)
    (duplicates_found : list string) : list (string * entry) * nat :=
  foldl (update_one duplicates_found) (catalog, 0%nat) new_data.

(** The script: scan, duplicate check, update; the catalog that is
    written and the number printed. *)
Definition main (env : file_env) (disk : gset string)
    (catalog : list (string * entry)) (walk : list (string * list string))
    : result (list (string * entry) * nat) :=
  st ← UpdateCatalogLocations.scan env disk catalog walk;
  Ok (update_catalog catalog (new_data st)
        (find_duplicates catalog (new_data st))).

End UpdateLocations.

(** ** Sample inputs of the further statements *)

Module Samples.

(** Two groups of candidates on the review screen. *)
Definition two_groups : list (list dupe) :=
  [[Examples.foo_a; Examples.foo_b]; [Examples.spaced]].

(** A second scanned copy, [/e/x], of the file of [Examples.copy_record]. *)
Definition second_copy : item :=
  {| i_h := "9a2c"; i_f := "x"; i_p := "/e"; i_s := 5 |}.

(** The record of [/d/x] when the catalog is [Examples.two_of_a_size]. *)
Definition moved_record : item :=
  {| i_h := "a1b2"; i_f := "x"; i_p := "/d"; i_s := 5 |}.

(** The return key, as [getKey] gives it. *)
Definition key_return : string := String "013"%char "".

(** A copy 882 directories deep whose name is a single space: no letter,
    no portable first character. *)
Definition deep_spaced : dupe :=
  new_dupe (Examples.deep_dir 882 +:+ "/ ") false.

(** The catalog's copy [/a/f]; its directory is favored by [["/a"]]. *)
Definition favored_copy : dupe := new_dupe "/a/f" true.

(** The catalog's copy [/b/c/foo.txt]; both directories above it are
    favored by [["/b"; "/b/c"]]. *)
Definition twice_favored : dupe := new_dupe "/b/c/foo.txt" true.





End Samples.

(** ** Vocabulary of the further statements *)

(** The catalog has this very record: same hash, name, directory, size. *)
Definition already_catalogued (catalog : list (string * entry)) (i : item) : Prop :=
  PyDict.get catalog (i_h i) = Some {| e_f := i_f i; e_p := i_p i; e_s := i_s i |}.

(** A record as a scan of [walk] makes it: a walked file that is not
    ignored, with the size and the digest of the file at its path. *)
Definition scanned_record (env : file_env) (walk : list (string * list string))
    (i : item) : Prop :=
  (i_p i, i_f i) ∈ walk_files walk
  ∧ Str.endswith_any (i_f i) ignore_extensions = false
  ∧ i_h i = hash_file env (item_fullpath i)
  ∧ i_s i = getsize env (item_fullpath i).

(** What a scan of [catalog_files.py] has established about the records
    it added to the WIP ones and about the paths it hashed. *)
Definition scan_inv (env : file_env) (catalog : list (string * entry))
    (wip : list item) (walk : list (string * list string)) (st : scan_state) : Prop :=
  ∃ produced,
    new_data st = wip ++ produced
    ∧ Forall (λ i, scanned_record env walk i ∧ ¬ already_catalogued catalog i
                   ∧ item_fullpath i ∈ hashed st) produced
    ∧ NoDup (map item_fullpath produced)
    ∧ (∀ fp, fp ∈ hashed st →
         (fp ∉ map item_fullpath wip)
         ∧ ∃ rf, rf ∈ walk_files walk ∧ fp = OsPath.join (fst rf) (snd rf)
                 ∧ Str.endswith_any (snd rf) ignore_extensions = false)
    ∧ Forall (λ i, item_fullpath i ∉ map item_fullpath wip) produced.

(** The candidates of a group are the copies of one hash: the catalog's
    file for it, which is on the disk, and scanned records with it. *)
Definition group_of_hash (catalog : list (string * entry)) (disk : gset string)
    (new_data : list item) (g : list dupe) : Prop :=
  ∃ h,
    Forall (λ d,
              if d_cat d
              then ∃ o, PyDict.get catalog h = Some o ∧ d_fp d = entry_fullpath o
                        ∧ d_fp d ∈ disk
              else ∃ i, i ∈ new_data ∧ i_h i = h ∧ d_fp d = item_fullpath i) g.

(** A path the identification loop removes without review: a scanned
    copy of a catalog entry whose own file is gone. *)
Definition orphaned_copy (catalog : list (string * entry)) (disk : gset string)
    (new_data : list item) (p : string) : Prop :=
  ∃ i o, i ∈ new_data ∧ p = item_fullpath i
         ∧ PyDict.get catalog (i_h i) = Some o ∧ entry_fullpath o ∉ disk.

(** Where a path on the removal list can come from: a scanned record, or,
    unless catalog files are protected, a catalog entry. *)
Definition removable (remove_catalog_dupes : bool) (catalog : list (string * entry))
    (new_data : list item) (p : string) : Prop :=
  (∃ i, i ∈ new_data ∧ item_fullpath i = p)
  ∨ (remove_catalog_dupes = true
     ∧ ∃ h o, PyDict.get catalog h = Some o ∧ entry_fullpath o = p).

(** The catalog entry made from a record. *)
Definition entry_of_item (i : item) : entry :=
  {| e_f := i_f i; e_p := i_p i; e_s := i_s i |}.

(** What the duplicate check of [update_catalog_locations.py] has flagged
    when it has been through the records [pre] of [all]: the paths of the
    records whose hash is a catalog key, was met in [pre], and is the hash
    of two records or more. *)
Definition flagged_after (catalog : list (string * entry)) (all pre : list item)
    (df : list string) : Prop :=
  ∀ fp, fp ∈ df ↔
    ∃ i, i ∈ all ∧ item_fullpath i = fp ∧ PyDict.mem catalog (i_h i) = true
         ∧ i_h i ∈ map i_h pre
         ∧ (2 ≤ length (filter (λ j, i_h j = i_h i) all))%nat.

(** * Properties *)

(** ** Scoring: [AnalyzeDupes] *)


(** C1, on the code: a group of two copies 20 and 19 directories deep,
    scored with no favored path.  The scores are -2 and -1; the loop that
    looks for the highest score starts from [highest_score = 0], never
    finds a greater one, and the first candidate is kept although the
    second one scores strictly higher. *)
Theorem C1_first_kept_when_no_score_is_positive :
  ∃ a b,
    CatalogFiles.AnalyzeDupes [] [[Examples.deeper; Examples.shallower]]
      = Ok [[a; b]]
    ∧ d_s a = Some (-2) ∧ d_s b = Some (-1)
    ∧ keep a = true ∧ keep b = false.
Proof.
  eexists _, _. split; [vm_compute; reflexivity|].
  repeat split.
Qed.

(** C2, on the code: ["/a/f o.txt"] gets the 4 points of a portable file
    name although the name contains a space, because only the first
    character of the name is tested; the formula of the specification
    gives 20, the code 24. *)
Theorem C2_portable_bonus_looks_at_first_character :
  CatalogFiles.score_dupe [] Examples.spaced = Ok 24
  ∧ Spec.score Examples.spaced [] = 20
  ∧ CatalogFiles.IsPortableFilename (d_fp Examples.spaced) = true
  ∧ Spec.matches_portable_class (snd (OsPath.split (d_fp Examples.spaced))) = false.
Proof. repeat split; vm_compute; reflexivity. Qed.

Section ScoreShape.
Import CatalogFiles.

Lemma py_round_ratio_bounds (num den k : Z) :
  0 < den → 0 ≤ num → num ≤ k * den →
  0 ≤ py_round_ratio num den ≤ k.
Proof.
  intros Hden Hnum Hle. unfold py_round_ratio.
  pose proof (Z.div_mod num den ltac:(lia)) as Hdm.
  pose proof (Z.mod_pos_bound num den Hden) as Hmod.
  assert (Hq0 : 0 ≤ num / den) by (apply Z.div_pos; lia).
  assert (Hqk : num / den ≤ k).
  { apply Z.div_le_upper_bound; lia. }
  destruct (decide (num / den = k)) as [Heq|Hne].
  - assert (num mod den = 0) by nia.
    repeat case_decide; try destruct (Z.even _); lia.
  - repeat case_decide; try destruct (Z.even _); lia.
Qed.

Lemma count_if_bounds (pred : ascii → bool) (f : string) :
  0 ≤ Str.count_if pred f ≤ Str.len f.
Proof.
  unfold Str.len. induction f as [|a f IH]; simpl; [lia|].
  destruct (pred a); lia.
Qed.

Lemma len_zero (f : string) : Str.len f = 0 → f = "".
Proof. unfold Str.len. destruct f; simpl; [done|lia]. Qed.

Lemma foldl_prefix_step_acc (fav chunks : list string) (l : list nat) (acc : Z) :
  foldl (prefix_step fav chunks) acc l
  = acc + foldl (prefix_step fav chunks) 0 l.
Proof.
  revert acc. induction l as [|c l IH]; intros acc; simpl; [lia|].
  rewrite (IH (prefix_step fav chunks acc c)),
          (IH (prefix_step fav chunks 0 c)).
  unfold prefix_step. case_bool_decide; lia.
Qed.

(** The score of a candidate with a non-empty file name is a sum of five
    terms, computed without an exception. *)
Lemma score_dupe_terms (fav : list string) (d : dupe) :
  snd (OsPath.split (d_fp d)) ≠ "" →
  score_dupe fav d =
    Ok ((15 - Str.count OsPath.sep (d_fp d))
        + (if d_cat d then 5 else 0)
        + py_round_ratio
            (Str.count_if Str.isalpha (snd (OsPath.split (d_fp d))) * 10)
            (Str.len (snd (OsPath.split (d_fp d))))
        + (if IsPortableFilename (d_fp d) then 4 else 0)
        + (if bool_decide (d_fp d ∈ fav) then 1000
           else prefix_bonus fav (fst (OsPath.split (d_fp d))))).
Proof.
  intros Hf. unfold score_dupe, prefix_bonus.
  destruct (OsPath.split (d_fp d)) as [p f] eqn:Hsplit. simpl in *.
  unfold round_scaled. case_decide as Hlen.
  { apply len_zero in Hlen. done. }
  simpl. case_bool_decide.
  - f_equal. destruct (d_cat d), (IsPortableFilename (d_fp d)); lia.
  - f_equal. rewrite foldl_prefix_step_acc.
    destruct (d_cat d), (IsPortableFilename (d_fp d)); lia.
Qed.

Lemma prefix_bonus_bounds_aux (fav chunks : list string) (l : list nat) :
  chunks ≠ [] →
  Forall (λ c, c < length chunks)%nat l →
  0 ≤ foldl (prefix_step fav chunks) 0 l
    ≤ 100 * Z.of_nat (length (filter (λ c, test_path chunks c ∈ fav) l)).
Proof.
  intros Hne. induction 1 as [|c l Hc _ IH]; [simpl; lia|].
  assert (0 < Z.of_nat (length chunks)) by (destruct chunks; simpl in *; [done|lia]).
  pose proof (py_round_ratio_bounds ((Z.of_nat c + 1) * 100)
                (Z.of_nat (length chunks)) 100 ltac:(lia) ltac:(lia) ltac:(nia)).
  rewrite filter_cons. cbn [foldl]. rewrite foldl_prefix_step_acc.
  destruct (decide (test_path chunks c ∈ fav)) as [Hin|Hnin].
  - replace (prefix_step fav chunks 0 c)
      with (0 + py_round_ratio ((Z.of_nat c + 1) * 100) (Z.of_nat (length chunks)))
      by (unfold prefix_step; by rewrite bool_decide_eq_true_2).
    cbn [length]. lia.
  - replace (prefix_step fav chunks 0 c) with 0
      by (unfold prefix_step; by rewrite bool_decide_eq_false_2).
    lia.
Qed.

Lemma prefix_bonus_bounds (fav : list string) (p : string) :
  0 ≤ prefix_bonus fav p
    ≤ 100 * Z.of_nat (length (matching_prefixes fav p)).
Proof.
  unfold prefix_bonus, matching_prefixes.
  destruct (path_chunks p) as [|w ws] eqn:Hc; [simpl; lia|].
  apply prefix_bonus_bounds_aux; [done|].
  apply Forall_forall. intros c Hin. apply elem_of_seq in Hin. lia.
Qed.

End ScoreShape.

(** Closes a decidable goal by evaluation. *)
Ltac by_evaluation := apply (bool_decide_unpack _); vm_compute; exact I.

Section ScoreAgainstSpec.
Import CatalogFiles.

Lemma spec_bonus_fold (fav chunks : list string) (l : list nat) (acc : Z) :
  foldl (λ bonus c,
           if bool_decide (test_path chunks c ∈ fav)
           then bonus + py_round_ratio (100 * (Z.of_nat c + 1))
                                       (Z.of_nat (length chunks))
           else bonus) acc l
  = foldl (prefix_step fav chunks) acc l.
Proof.
  revert acc. induction l as [|c l IH]; intros acc; [done|].
  cbn [foldl]. rewrite IH. unfold prefix_step at 2.
  by rewrite (Z.mul_comm 100).
Qed.

(** The code and the formula of the specification differ by the
    portability term only. *)
Lemma score_dupe_against_spec (fav : list string) (d : dupe) :
  snd (OsPath.split (d_fp d)) ≠ "" →
  score_dupe fav d =
    Ok (Spec.score d fav
        + (if IsPortableFilename (d_fp d) then 4 else 0)
        - (if Spec.matches_portable_class (snd (OsPath.split (d_fp d)))
           then 4 else 0)).
Proof.
  intros Hf. rewrite score_dupe_terms by done. f_equal.
  unfold Spec.score, Spec.favoredBonus, prefix_bonus.
  rewrite spec_bonus_fold, (Z.mul_comm 10). lia.
Qed.

End ScoreAgainstSpec.

(** C4, as stated, fails, in two ways.  With the twenty directories above
    [nested] favored, its prefix bonuses add up to 1050, and the exact
    rule added for [chosen] does not lift [chosen] above it (1028 against
    1058).  And the separator term has no lower bound: with the one
    directory of [favored_copy] favored, the exact rule leaves
    [deep_spaced], 881 separators deeper, at 132, which is the score of
    [favored_copy]; so the claim fails already where the separators of X
    and a hundred for each favored prefix of Y exceed the separators of Y
    by 981. *)
Lemma C4_counterexample_prefixes_and_depth :
  ¬ (∀ (fav : list string) (X Y : dupe) (sx sy : Z),
       d_fp Y ∉ fav ++ [d_fp X] →
       CatalogFiles.score_dupe (fav ++ [d_fp X]) X = Ok sx →
       CatalogFiles.score_dupe (fav ++ [d_fp X]) Y = Ok sy →
       sy < sx)
  ∧ ¬ (∀ (fav : list string) (X Y : dupe) (sx sy : Z),
         d_fp Y ∉ fav ++ [d_fp X] →
         Str.count OsPath.sep (d_fp X)
         + 100 * Z.of_nat
                   (length (CatalogFiles.matching_prefixes (fav ++ [d_fp X])
                              (fst (OsPath.split (d_fp Y)))))
         ≤ Str.count OsPath.sep (d_fp Y) + 981 →
         CatalogFiles.score_dupe (fav ++ [d_fp X]) X = Ok sx →
         CatalogFiles.score_dupe (fav ++ [d_fp X]) Y = Ok sy →
         sy < sx).
Proof.
  split.
  - intros H.
    specialize (H Examples.nested_rules Examples.chosen Examples.nested 1028 1058).
    assert (1058 < 1028); [|lia].
    apply H; [by_evaluation| vm_compute; reflexivity ..].
  - intros H.
    specialize (H ["/a"] Samples.deep_spaced Samples.favored_copy 132 132).
    assert (132 < 132); [|lia].
    apply H; [by_evaluation | by_evaluation | vm_compute; reflexivity ..].
Qed.

(** C4, amended: after an exact rule for X is appended to the favored
    paths, X scores strictly higher than a sibling Y without an exact rule,
    provided the separators in the path of X, plus a hundred for each
    directory prefix of Y that is favored, are at most the separators in
    the path of Y plus 980.  Both scores are computed (the file names are
    not empty).  The bound cannot be raised to 981. *)
Theorem C4_exact_rule_dominates (fav : list string) (X Y : dupe) :
  snd (OsPath.split (d_fp X)) ≠ "" →
  snd (OsPath.split (d_fp Y)) ≠ "" →
  d_fp Y ∉ fav ++ [d_fp X] →
  Str.count OsPath.sep (d_fp X)
  + 100 * Z.of_nat
            (length (CatalogFiles.matching_prefixes (fav ++ [d_fp X])
                       (fst (OsPath.split (d_fp Y)))))
  ≤ Str.count OsPath.sep (d_fp Y) + 980 →
  ∃ sx sy,
    CatalogFiles.score_dupe (fav ++ [d_fp X]) X = Ok sx
    ∧ CatalogFiles.score_dupe (fav ++ [d_fp X]) Y = Ok sy
    ∧ sy < sx.
Proof.
  intros HfX HfY HY Hbound.
  rewrite !score_dupe_terms by done.
  eexists _, _. split; [reflexivity|]. split; [reflexivity|].
  assert (d_fp X ∈ fav ++ [d_fp X]) as HX by set_solver.
  repeat case_bool_decide; try done.
  pose proof (prefix_bonus_bounds (fav ++ [d_fp X]) (fst (OsPath.split (d_fp Y)))).
  assert (∀ f, f ≠ "" →
            0 ≤ py_round_ratio (Str.count_if Str.isalpha f * 10) (Str.len f) ≤ 10)
    as Hletters.
  { intros f Hf. pose proof (count_if_bounds Str.isalpha f).
    apply py_round_ratio_bounds; [|lia..].
    destruct (decide (Str.len f = 0)) as [Hz|]; [by apply len_zero in Hz|lia]. }
  pose proof (Hletters _ HfX). pose proof (Hletters _ HfY).
  destruct (d_cat X), (d_cat Y),
    (CatalogFiles.IsPortableFilename (d_fp X)),
    (CatalogFiles.IsPortableFilename (d_fp Y)); lia.
Qed.

(** A sibling with two favored directories above it, which is in the
    catalog: the exact rule for [/a/foo.txt] wins, 1026 against 180. *)
Lemma C4_exact_rule_dominates_witness :
  ∃ sx sy,
    CatalogFiles.score_dupe (["/b"; "/b/c"] ++ [d_fp Examples.foo_a]) Examples.foo_a
    = Ok sx
    ∧ CatalogFiles.score_dupe (["/b"; "/b/c"] ++ [d_fp Examples.foo_a])
        Samples.twice_favored = Ok sy
    ∧ sy < sx.
Proof.
  apply (C4_exact_rule_dominates ["/b"; "/b/c"] Examples.foo_a Samples.twice_favored);
    by_evaluation.
Defined.

(** ** Grouping: the duplicate identification loop *)

Section GroupingFacts.
Import CatalogFiles.

Lemma matching_of_cat (new_data : list item) (hash : string) (seen : list string) :
  Forall (λ d, d_cat d = false) (matching_of new_data hash seen).
Proof. unfold matching_of. apply Forall_map. by apply Forall_true. Qed.

Lemma filter_all {A} (P : A → Prop) `{∀ x, Decision (P x)} (l : list A) :
  Forall P l → filter P l = l.
Proof.
  induction 1 as [|x l Hx _ IH]; [done|].
  by rewrite filter_cons_True, IH.
Qed.

Lemma filter_none {A} (P : A → Prop) `{∀ x, Decision (P x)} (l : list A) :
  Forall (λ x, ¬ P x) l → filter P l = [].
Proof.
  induction 1 as [|x l Hx _ IH]; [done|].
  by rewrite filter_cons_False.
Qed.

Lemma matching_of_scan (new_data : list item) (hash : string) (seen : list string) :
  scan_origin (matching_of new_data hash seen) = matching_of new_data hash seen
  ∧ cat_origin (matching_of new_data hash seen) = [].
Proof.
  pose proof (matching_of_cat new_data hash seen) as Hc. split.
  - by apply filter_all.
  - apply filter_none. eapply Forall_impl; [exact Hc|]. intros d Hd. congruence.
Qed.

(** "There will always be 1 match here": the record at hand is one of
    the matching ones. *)
Lemma matching_of_current (new_data : list item) (seen : list string) (file : item) :
  file ∈ new_data → item_fullpath file ∉ seen →
  (1 ≤ length (matching_of new_data (i_h file) seen))%nat.
Proof.
  intros Hin Hseen. unfold matching_of. rewrite length_map.
  assert (file ∈ filter (λ i, i_h i = i_h file ∧ item_fullpath i ∉ seen) new_data)
    as Hf by (apply list_elem_of_filter; done).
  destruct (filter _ new_data); [by apply elem_of_nil in Hf|simpl; lia].
Qed.

Lemma matching_of_single (new_data : list item) (hash : string) (seen : list string) :
  length (matching_of new_data hash seen) = 1%nat →
  ∃ i, i ∈ new_data ∧ i_h i = hash
       ∧ map d_fp (matching_of new_data hash seen) = [item_fullpath i].
Proof.
  unfold matching_of. rewrite length_map. intros Hlen.
  destruct (filter _ new_data) as [|i [|? ?]] eqn:Hf; simpl in Hlen; try lia.
  assert (i ∈ filter (λ i, i_h i = hash ∧ item_fullpath i ∉ seen) new_data)
    as Hi by (rewrite Hf; set_solver).
  apply list_elem_of_filter in Hi as [[Hh _] Hin].
  exists i. done.
Qed.

Lemma close_group_shape (flag : bool) (catalog : list (string * entry))
    (disk : gset string) (new_data : list item) (st : group_state)
    (file : item) (catalog_item : option dupe) :
  file ∈ new_data → item_fullpath file ∉ dupes st →
  (∀ ci, catalog_item = Some ci →
         d_cat ci = true
         ∧ ∃ o, PyDict.get catalog (i_h file) = Some o ∧ entry_fullpath o ∈ disk) →
  Forall (group_shape flag catalog disk new_data) (duplicates st) →
  Forall (group_shape flag catalog disk new_data)
         (duplicates (close_group flag new_data st (i_h file) catalog_item)).
Proof.
  intros Hin Hseen Hci Hst. unfold close_group.
  destruct (bool_decide (length _ < 2)%nat && bool_decide (catalog_item = None))
    eqn:Hskip; [done|].
  cbn [duplicates]. apply Forall_app. split; [done|]. apply Forall_singleton.
  pose proof (matching_of_current new_data (dupes st) file Hin Hseen) as Hone.
  destruct (matching_of_scan new_data (i_h file) (dupes st)) as [Hscan Hcat].
  set (m := matching_of new_data (i_h file) (dupes st)) in *.
  unfold group_shape, cat_origin, scan_origin in *.
  destruct catalog_item as [ci|].
  - destruct (Hci ci eq_refl) as [Hcat_ci (o & Ho & Hdisk)].
    destruct flag.
    + rewrite !filter_app, Hscan, Hcat.
      rewrite filter_cons_True, filter_cons_False by (simpl; congruence).
      rewrite !filter_nil, length_app. simpl. split_and!; try lia; done.
    + simpl. rewrite Hscan, Hcat. split_and!; try done; try (simpl; lia).
      intros _. split; [done|]. intros Hlen.
      destruct (matching_of_single new_data (i_h file) (dupes st) Hlen)
        as (i & Hi & Hh & Hfp).
      exists i, o. rewrite Hh. done.
  - rewrite andb_false_iff in Hskip. destruct Hskip as [Hlen|Hnone].
    + apply bool_decide_eq_false in Hlen.
      simpl. rewrite Hscan, Hcat. split_and!; try done; try (simpl; lia).
      intros _. split; [done|]. lia.
    + by apply bool_decide_eq_false in Hnone.
Qed.

Lemma identify_step_shape (flag : bool) (catalog : list (string * entry))
    (disk : gset string) (new_data : list item) (st : group_state) (file : item) :
  file ∈ new_data →
  Forall (group_shape flag catalog disk new_data) (duplicates st) →
  Forall (group_shape flag catalog disk new_data)
         (duplicates (identify_step flag catalog disk new_data st file)).
Proof.
  intros Hin Hst. unfold identify_step.
  case_bool_decide as Hseen; [done|].
  destruct (PyDict.get catalog (i_h file)) as [o|] eqn:Hget.
  - destruct (negb _) eqn:Hgone; [done|].
    apply negb_false_iff, bool_decide_eq_true in Hgone.
    apply close_group_shape; try done.
    intros ci [= <-]. split; [done|]. by exists o.
  - apply close_group_shape; try done.
Qed.

Lemma identify_loop_shape (flag : bool) (catalog : list (string * entry))
    (disk : gset string) (new_data : list item) (l : list item) (st : group_state) :
  l ⊆ new_data →
  Forall (group_shape flag catalog disk new_data) (duplicates st) →
  Forall (group_shape flag catalog disk new_data)
         (duplicates (foldl (identify_step flag catalog disk new_data) st l)).
Proof.
  revert st. induction l as [|file l IH]; intros st Hsub Hst; [done|].
  cbn [foldl]. apply IH; [set_solver|].
  apply identify_step_shape; [set_solver|done].
Qed.

End GroupingFacts.

(** C3, as stated, fails: with [remove_catalog_dupes] off, one scanned
    copy of a file whose catalog entry is still on disk forms a group of
    one candidate. *)
Lemma C3_counterexample_single_candidate :
  ¬ (∀ (remove_catalog_dupes : bool) (catalog : list (string * entry))
       (disk : gset string) (new_data : list item),
       Forall (λ g, 2 ≤ length g)%nat
         (CatalogFiles.duplicates
            (CatalogFiles.identify_duplicates remove_catalog_dupes catalog disk
               new_data))).
Proof.
  intros H.
  specialize (H false [("h", {| e_f := "x"; e_p := "/c"; e_s := 5 |})]
                {["/c/x"]}
                [{| i_h := "h"; i_f := "x"; i_p := "/d"; i_s := 5 |}]).
  assert (CatalogFiles.duplicates
            (CatalogFiles.identify_duplicates false
               [("h", {| e_f := "x"; e_p := "/c"; e_s := 5 |})] {["/c/x"]}
               [{| i_h := "h"; i_f := "x"; i_p := "/d"; i_s := 5 |}])
          = [[new_dupe "/d/x" false]]) as Heq by (vm_compute; reflexivity).
  rewrite Heq in H. apply Forall_inv in H. simpl in H. lia.
Qed.

(** C3, amended: every group has at most one catalog-origin and at least
    one scan-origin candidate.  With [remove_catalog_dupes] on it has at
    least two candidates; with it off it has no catalog-origin candidate,
    and a group of a single candidate is a scanned record whose hash is in
    the catalog with the catalog file still on disk. *)
Theorem C3_group_shape (remove_catalog_dupes : bool)
    (catalog : list (string * entry)) (disk : gset string) (new_data : list item) :
  Forall (group_shape remove_catalog_dupes catalog disk new_data)
    (CatalogFiles.duplicates
       (CatalogFiles.identify_duplicates remove_catalog_dupes catalog disk new_data)).
Proof.
  unfold CatalogFiles.identify_duplicates.
  apply identify_loop_shape; [done|]. simpl. constructor.
Qed.


(** ** The example scenario *)

Section HelloScenario.
Import CatalogFiles Examples.
Variable hexdigest : list Byte.byte → string.

Let h : string := hexdigest hello.
Let rec_a : item := {| i_h := h; i_f := "foo.txt"; i_p := "/a"; i_s := 5 |}.
Let rec_b : item := {| i_h := h; i_f := "foo.txt"; i_p := "/b"; i_s := 5 |}.

Lemma hello_scan :
  scan (hello_env hexdigest) [] [] hello_walk
  = Ok {| new_data := [rec_a; rec_b]; renamed := [];
          hashed := ["/a/foo.txt"; "/b/foo.txt"] |}.
Proof. vm_compute. reflexivity. Qed.

Lemma hello_groups (flag : bool) (disk : gset string) :
  identify_duplicates flag [] disk [rec_a; rec_b]
  = {| dupes := ["/a/foo.txt"; "/b/foo.txt"]; to_be_removed := [];
       duplicates := [[foo_a; foo_b]] |}.
Proof.
  unfold identify_duplicates. cbn [foldl].
  unfold identify_step at 2. cbn [dupes i_h PyDict.get rec_a].
  rewrite bool_decide_eq_false_2 by set_solver.
  unfold close_group, matching_of. cbn [dupes].
  rewrite !filter_cons_True by (split; [done|set_solver]).
  rewrite filter_nil. cbn [map length].
  rewrite bool_decide_eq_false_2 by lia. cbn [andb].
  unfold identify_step. cbn [dupes].
  rewrite bool_decide_eq_true_2; [done|].
  vm_compute. set_solver.
Qed.

End HelloScenario.

(** C5, as stated, fails on the score: ["/a/foo.txt"] has two separators
    and six letters among the seven characters of its name, which makes
    13 + 0 + 9 + 4 + 0 = 26, not 28. *)
Lemma C5_counterexample_score_is_not_28 :
  ¬ (CatalogFiles.score_dupe [] Examples.foo_a = Ok 28
     ∧ CatalogFiles.score_dupe [] Examples.foo_b = Ok 28).
Proof. intros [H _]. vm_compute in H. discriminate H. Qed.

(** C5, amended: in the example scenario, whatever the digest function
    and the setting of [remove_catalog_dupes], the scan hashes both files
    and appends two records with one hash; the identification loop forms
    one group of two candidates; with no favored path both score 26
    ((15-2) + 0 + 9 + 4 + 0); the first candidate is kept, and at the end
    of the review the path of the second one is the only entry of
    [to_be_removed]. *)
Theorem C5_hello_scenario (hexdigest : list Byte.byte → string) (flag : bool) :
  let h := hexdigest Examples.hello in
  let rec_a := {| i_h := h; i_f := "foo.txt"; i_p := "/a"; i_s := 5 |} in
  let rec_b := {| i_h := h; i_f := "foo.txt"; i_p := "/b"; i_s := 5 |} in
  CatalogFiles.scan (Examples.hello_env hexdigest) [] [] Examples.hello_walk
    = Ok {| new_data := [rec_a; rec_b]; renamed := [];
            hashed := ["/a/foo.txt"; "/b/foo.txt"] |}
  ∧ CatalogFiles.duplicates
      (CatalogFiles.identify_duplicates flag []
         (Examples.hello_disk ∪ {[Examples.wip_db_path]}) [rec_a; rec_b])
    = [[Examples.foo_a; Examples.foo_b]]
  ∧ CatalogFiles.score_dupe [] Examples.foo_a = Ok 26
  ∧ CatalogFiles.score_dupe [] Examples.foo_b = Ok 26
  ∧ CatalogFiles.AnalyzeDupes [] [[Examples.foo_a; Examples.foo_b]]
    = Ok [[ {| d_fp := "/a/foo.txt"; d_cat := false;
               d_s := Some 26; d_r := Some false |};
            {| d_fp := "/b/foo.txt"; d_cat := false;
               d_s := Some 26; d_r := Some true |} ]]
  ∧ result_map CatalogFiles.r_to_be_removed
      (CatalogFiles.main flag Examples.wip_db_path (Examples.hello_env hexdigest)
         [] [] Examples.hello_disk Examples.hello_input)
    = Ok ["/b/foo.txt"].
Proof.
  intros h rec_a rec_b.
  split; [apply hello_scan|].
  split; [unfold rec_a, rec_b, h; by rewrite hello_groups|].
  split; [vm_compute; reflexivity|].
  split; [vm_compute; reflexivity|].
  split; [vm_compute; reflexivity|].
  unfold CatalogFiles.main, CatalogFiles.up_to_deletion, Examples.hello_input.
  cbn [CatalogFiles.in_walk CatalogFiles.in_keys CatalogFiles.in_remove_answer
       CatalogFiles.in_commit_answer].
  rewrite hello_scan.
  cbn [mbind result_mbind result_bind new_data hashed].
  rewrite hello_groups.
  vm_compute. reflexivity.
Qed.

(** ** The removal list *)

Section RemovalFacts.
Import CatalogFiles.

Lemma RemoveDupes_group_paths (dupes : list dupe) (tbr out : list string) :
  RemoveDupes_group tbr dupes = Ok out →
  out = tbr ++ map d_fp (filter (λ d, keep d = false) dupes).
Proof.
  revert tbr. induction dupes as [|d dupes IH]; intros tbr; simpl.
  - intros [= <-]. by rewrite app_nil_r.
  - unfold get_r. destruct (d_r d) as [[|]|] eqn:Hr; simpl; [| |done].
    + intros Hout. apply IH in Hout.
      rewrite filter_cons_True by (unfold keep; by rewrite Hr).
      by rewrite Hout, <- app_assoc.
    + intros Hout. apply IH in Hout.
      by rewrite filter_cons_False by (unfold keep; by rewrite Hr).
Qed.

Lemma RemoveDupes_paths (duplicates : list (list dupe)) (tbr out : list string) :
  RemoveDupes tbr duplicates = Ok out →
  out = tbr ++ flagged_paths duplicates.
Proof.
  unfold flagged_paths. revert tbr.
  induction duplicates as [|dupes duplicates IH]; intros tbr; simpl.
  - intros [= <-]. by rewrite app_nil_r.
  - destruct (RemoveDupes_group tbr dupes) as [tbr'|] eqn:Hg; simpl; [|done].
    intros Hout. apply IH in Hout. apply RemoveDupes_group_paths in Hg.
    rewrite Hout, Hg, filter_app, map_app, app_assoc. done.
Qed.

Lemma review_session_paths (keys : list command) (g : group_state)
    (fav : list string) (dups : list (list dupe)) (tbr : list string) :
  review_session keys g = Ok (fav, dups, tbr) →
  tbr = to_be_removed g ++ flagged_paths dups.
Proof.
  unfold review_session. case_decide as Hlen.
  - destruct (AnalyzeDupes [] (duplicates g)) as [analysed|]; simpl; [|done].
    destruct (review _ keys [] analysed) as [[fav' dups']|]; simpl; [|done].
    destruct (RemoveDupes (to_be_removed g) dups') as [tbr'|] eqn:Hrm;
      simpl; [|done].
    intros [= <- <- <-]. by apply RemoveDupes_paths.
  - intros [= <- <- <-].
    destruct (duplicates g); [|simpl in Hlen; lia].
    unfold flagged_paths. simpl. by rewrite app_nil_r.
Qed.






End RemovalFacts.




(** C8, on the code: the copy [/d/x] of the catalog entry [/c/x], with
    [remove_catalog_dupes] off.  The commit finds the hash in the catalog,
    reports it and inserts nothing, yet the message says 1 file was
    added: the number printed is [len(new_cat_entries)]. *)
Theorem C8_added_count_includes_skipped :
  result_map CatalogFiles.r_trace
    (CatalogFiles.main false Examples.wip_db_path Examples.copy_env
       Examples.one_entry [] Examples.both_on_disk Examples.copy_input)
  = Ok [CatalogFiles.DumpWip [Examples.copy_record];
        CatalogFiles.AskCommit 1;
        CatalogFiles.AlreadyInCatalog "9a2c" "x";
        CatalogFiles.Added 1;
        CatalogFiles.DumpCatalog Examples.one_entry;
        CatalogFiles.RemoveWip]
  ∧ result_map CatalogFiles.r_catalog
      (CatalogFiles.main false Examples.wip_db_path Examples.copy_env
         Examples.one_entry [] Examples.both_on_disk Examples.copy_input)
    = Ok Examples.one_entry.
Proof. split; vm_compute; reflexivity. Qed.

(** ** Dictionaries and the path index *)

Section DictFacts.
Context {V : Type}.
Implicit Types (d : list (string * V)) (k : string) (v : V).

Lemma get_Some_elem d k v : PyDict.get d k = Some v → (k, v) ∈ d.
Proof.
  induction d as [|[k' v'] d IH]; simpl; [done|].
  case_decide as Hk.
  - intros [= <-]. subst. set_solver.
  - intros Hget. apply IH in Hget. set_solver.
Qed.

Lemma get_key_is_Some d k : k ∈ PyDict.keys d → is_Some (PyDict.get d k).
Proof.
  unfold PyDict.keys. induction d as [|[k' v'] d IH]; simpl.
  - intros Hin. by apply elem_of_nil in Hin.
  - intros Hin. case_decide as Hk; [by eexists|].
    apply elem_of_cons in Hin as [->|Hin]; [done|]. by apply IH.
Qed.

Lemma get_None_key d k : PyDict.get d k = None → k ∉ PyDict.keys d.
Proof.
  intros Hget Hin. apply get_key_is_Some in Hin as [v Hv]. congruence.
Qed.

Lemma set_elem d k v k' v' :
  (k', v') ∈ PyDict.set d k v → (k', v') ∈ d ∨ (k', v') = (k, v).
Proof.
  induction d as [|[k0 v0] d IH]; simpl.
  - intros Hin. apply list_elem_of_singleton in Hin. by right.
  - case_decide as Hk.
    + intros Hin. apply elem_of_cons in Hin as [->|Hin]; [by right|].
      left. set_solver.
    + intros Hin. apply elem_of_cons in Hin as [->|Hin]; [left; set_solver|].
      apply IH in Hin as [Hin|Hin]; [left; set_solver|by right].
Qed.

Lemma get_set_eq d k v : PyDict.get (PyDict.set d k v) k = Some v.
Proof.
  induction d as [|[k0 v0] d IH]; simpl.
  - by rewrite decide_True.
  - case_decide as Hk; simpl.
    + by rewrite decide_True.
    + by rewrite decide_False.
Qed.

Lemma get_set_ne d k v k' : k ≠ k' → PyDict.get (PyDict.set d k v) k' = PyDict.get d k'.
Proof.
  intros Hne. induction d as [|[k0 v0] d IH]; simpl.
  - by rewrite decide_False.
  - case_decide as Hk; simpl.
    + subst k0. by rewrite !decide_False.
    + case_decide; [done|]. apply IH.
Qed.

Lemma set_length_new d k v :
  PyDict.get d k = None → length (PyDict.set d k v) = S (length d).
Proof.
  induction d as [|[k0 v0] d IH]; simpl; [done|].
  case_decide; [done|]. intros Hget. simpl. by rewrite IH.
Qed.

End DictFacts.

Section IndexFacts.

Lemma build_index_values (catalog : list (string * entry)) (l : list (string * entry))
    (idx : list (string * string)) :
  l ⊆ catalog →
  (∀ fp h, (fp, h) ∈ idx → h ∈ PyDict.keys catalog) →
  ∀ fp h,
    (fp, h) ∈ foldl (λ idx he, PyDict.set idx (entry_fullpath (snd he)) (fst he)) idx l →
    h ∈ PyDict.keys catalog.
Proof.
  revert idx. induction l as [|[h0 e0] l IH]; intros idx Hsub Hidx fp h; simpl.
  - apply Hidx.
  - apply IH; [set_solver|].
    intros fp' h' Hin. apply set_elem in Hin as [Hin|[= -> ->]]; [by eapply Hidx|].
    unfold PyDict.keys. apply list_elem_of_fmap. exists (h0, e0).
    split; [done|]. set_solver.
Qed.

(** Every hash the index returns is a key of the catalog: the lookup
    [catalog[catalog_index[fullpath]]] cannot fail. *)
Lemma catalog_index_sound (catalog : list (string * entry)) (fullpath h : string) :
  PyDict.get (build_catalog_index catalog) fullpath = Some h →
  is_Some (PyDict.get catalog h).
Proof.
  intros Hget. apply get_Some_elem in Hget. apply get_key_is_Some.
  unfold build_catalog_index in Hget.
  eapply (build_index_values catalog catalog []); [done| |exact Hget].
  intros fp' h' Hin. by apply elem_of_nil in Hin.
Qed.

Lemma unchanged_in_catalog_total (catalog : list (string * entry))
    (fullpath : string) (size : Z) :
  ∃ b, unchanged_in_catalog catalog (build_catalog_index catalog) fullpath size = Ok b.
Proof.
  unfold unchanged_in_catalog.
  destruct (PyDict.get (build_catalog_index catalog) fullpath) as [h|] eqn:Hidx;
    [|by eexists].
  destruct (catalog_index_sound _ _ _ Hidx) as [e He].
  unfold PyDict.lookup. rewrite He. by eexists.
Qed.

Lemma unchanged_in_catalog_hit (catalog : list (string * entry))
    (fullpath h : string) (e : entry) (size : Z) :
  PyDict.get (build_catalog_index catalog) fullpath = Some h →
  PyDict.get catalog h = Some e →
  size = e_s e →
  unchanged_in_catalog catalog (build_catalog_index catalog) fullpath size = Ok true.
Proof.
  intros Hidx He Hs. unfold unchanged_in_catalog, PyDict.lookup.
  rewrite Hidx, He. simpl. by rewrite bool_decide_eq_true_2.
Qed.

Lemma for_fold_invariant {A S : Type} (body : S → A → result S) (Inv : S → Prop)
    (l : list A) (st : S) :
  Inv st →
  (∀ st x, Inv st → ∃ st', body st x = Ok st' ∧ Inv st') →
  ∃ st', for_fold body st l = Ok st' ∧ Inv st'.
Proof.
  intros Hst Hbody. revert st Hst.
  induction l as [|x l IH]; intros st Hst; simpl; [by eexists|].
  destruct (Hbody st x Hst) as (st' & -> & Hst'). simpl. by apply IH.
Qed.

End IndexFacts.

(** ** The skip test of the three scan loops *)

(** Case on the catalog lookup of the goal. *)
Ltac case_catalog_get :=
  match goal with
  | |- context [PyDict.get ?c ?x] => destruct (PyDict.get c x)
  end.

Section SkipFacts.
Variable env : file_env.
Variable catalog : list (string * entry).
Variable fullpath h : string.
Variable e : entry.
Hypothesis Hidx : PyDict.get (build_catalog_index catalog) fullpath = Some h.
Hypothesis Hentry : PyDict.get catalog h = Some e.
Hypothesis Hsize : getsize env fullpath = e_s e.

Lemma not_elem_of_snoc (l : list string) (x y : string) :
  x ∉ l → y ≠ x → x ∉ l ++ [y].
Proof.
  intros Hl Hne [Hin|Hin]%elem_of_app; [done|].
  apply list_elem_of_singleton in Hin. congruence.
Qed.

Lemma left_alone_start (wip : list item) :
  left_alone fullpath wip {| new_data := wip; renamed := []; hashed := [] |}.
Proof.
  split; [apply not_elem_of_nil|]. split; [|by constructor].
  exists []. by rewrite app_nil_r.
Qed.

Lemma left_alone_hashed (wip : list item) (st : scan_state) (other : string) :
  other ≠ fullpath → left_alone fullpath wip st →
  left_alone fullpath wip
    {| new_data := new_data st; renamed := renamed st; hashed := hashed st ++ [other] |}.
Proof.
  intros Hne (Hlog & Hnew & Hren). split; [|done]. simpl.
  by apply not_elem_of_snoc.
Qed.

Lemma left_alone_appended (wip : list item) (st : scan_state) (it : item) :
  item_fullpath it ≠ fullpath → left_alone fullpath wip st →
  left_alone fullpath wip
    {| new_data := new_data st ++ [it]; renamed := renamed st;
       hashed := hashed st ++ [item_fullpath it] |}.
Proof.
  intros Hne (Hlog & (produced & Hnew & Hok) & Hren).
  split; [simpl; by apply not_elem_of_snoc|]. split; [|done]. simpl.
  exists (produced ++ [it]). rewrite Hnew, app_assoc. split; [done|].
  apply Forall_app. split; [done|]. by apply Forall_singleton.
Qed.

Lemma left_alone_renamed (wip : list item) (st : scan_state) (it : item) :
  item_fullpath it ≠ fullpath → left_alone fullpath wip st →
  left_alone fullpath wip
    {| new_data := new_data st; renamed := renamed st ++ [it];
       hashed := hashed st ++ [item_fullpath it] |}.
Proof.
  intros Hne (Hlog & Hnew & Hren).
  split; [simpl; by apply not_elem_of_snoc|]. split; [done|]. simpl.
  apply Forall_app. split; [done|]. by apply Forall_singleton.
Qed.

Lemma catalog_files_step (wip : list item) (st : scan_state) (rf : string * string) :
  left_alone fullpath wip st →
  ∃ st', CatalogFiles.scan_file env catalog (build_catalog_index catalog) st rf = Ok st'
         ∧ left_alone fullpath wip st'.
Proof.
  intros Hst. destruct rf as [root file]. unfold CatalogFiles.scan_file.
  destruct (Str.endswith_any file ignore_extensions); [by eexists|].
  destruct (decide (OsPath.join root file = fullpath)) as [->|Hne].
  { rewrite (unchanged_in_catalog_hit _ _ _ _ _ Hidx Hentry Hsize). by eexists. }
  destruct (unchanged_in_catalog_total catalog (OsPath.join root file)
              (getsize env (OsPath.join root file))) as [b ->]. simpl.
  destruct b; [by eexists|].
  destruct (existsb _ (new_data st)); [by eexists|].
  set (it := {| i_h := hash_file env (OsPath.join root file); i_f := file;
                i_p := root; i_s := getsize env (OsPath.join root file) |}).
  assert (item_fullpath it = OsPath.join root file) as Hfp by done.
  case_catalog_get; [destruct (CatalogFiles.same_location _ it)|];
    eexists; (split; [reflexivity|]).
  - by apply left_alone_hashed.
  - rewrite <- Hfp. apply left_alone_appended; [by rewrite Hfp|done].
  - rewrite <- Hfp. apply left_alone_appended; [by rewrite Hfp|done].
Qed.

Lemma update_locations_step (disk : gset string) (st : scan_state)
    (rf : string * string) :
  left_alone fullpath [] st →
  ∃ st', UpdateCatalogLocations.scan_file env disk catalog
           (build_catalog_index catalog)
           (UpdateCatalogLocations.build_catalog_list catalog) st rf = Ok st'
         ∧ left_alone fullpath [] st'.
Proof.
  intros Hst. destruct rf as [root file]. unfold UpdateCatalogLocations.scan_file.
  destruct (Str.endswith_any file ignore_extensions); [by eexists|].
  destruct (decide (OsPath.join root file = fullpath)) as [->|Hne].
  { rewrite (unchanged_in_catalog_hit _ _ _ _ _ Hidx Hentry Hsize). by eexists. }
  destruct (unchanged_in_catalog_total catalog (OsPath.join root file)
              (getsize env (OsPath.join root file))) as [b ->]. simpl.
  destruct b; [by eexists|].
  unfold UpdateCatalogLocations.entry_equals_item.
  case_decide as Hfound.
  - case_catalog_get; eexists; (split; [reflexivity|]);
      by apply (left_alone_appended []
                  _ {| i_h := _; i_f := file; i_p := root; i_s := _ |}).
  - destruct Hst as (Hlog & (produced & Hnew & Hok) & Hren).
    case_catalog_get; eexists; (split; [reflexivity|]);
      (split; [done|]); (split; [|done]); simpl;
      (eexists; split; [rewrite Hnew; simpl; reflexivity|]);
      (apply Forall_app; split; [done|]); by apply Forall_singleton.
Qed.

Lemma find_noncatalog_step (st : scan_state) (rf : string * string) :
  left_alone fullpath [] st →
  ∃ st', FindNoncatalogFiles.scan_file env catalog (build_catalog_index catalog) st rf
           = Ok st'
         ∧ left_alone fullpath [] st'.
Proof.
  intros Hst. destruct rf as [root file]. unfold FindNoncatalogFiles.scan_file.
  destruct (Str.endswith_any file ignore_extensions); [by eexists|].
  destruct (decide (OsPath.join root file = fullpath)) as [->|Hne].
  { rewrite (unchanged_in_catalog_hit _ _ _ _ _ Hidx Hentry Hsize). by eexists. }
  destruct (unchanged_in_catalog_total catalog (OsPath.join root file)
              (getsize env (OsPath.join root file))) as [b ->]. simpl.
  destruct b; [by eexists|].
  destruct (PyDict.mem catalog _); eexists; (split; [reflexivity|]).
  - by apply (left_alone_renamed []
                _ {| i_h := _; i_f := file; i_p := root; i_s := _ |}).
  - by apply (left_alone_appended []
                _ {| i_h := _; i_f := file; i_p := root; i_s := _ |}).
Qed.

End SkipFacts.

(** C7: a path that the catalog index knows, with the size the catalog
    records for it, is left alone by each of the three scans: the scan
    runs to its end, [hash_file] is never called on that path, and no
    record of that path is appended (to [new_data], nor to [renamed]). *)
Theorem C7_unchanged_files_are_not_hashed (env : file_env) (disk : gset string)
    (catalog : list (string * entry)) (wip : list item)
    (walk : list (string * list string)) (fullpath h : string) (e : entry) :
  PyDict.get (build_catalog_index catalog) fullpath = Some h →
  PyDict.get catalog h = Some e →
  getsize env fullpath = e_s e →
  (∃ st, CatalogFiles.scan env catalog wip walk = Ok st
         ∧ left_alone fullpath wip st)
  ∧ (∃ st, UpdateCatalogLocations.scan env disk catalog walk = Ok st
           ∧ left_alone fullpath [] st)
  ∧ (∃ st, FindNoncatalogFiles.scan env catalog walk = Ok st
           ∧ left_alone fullpath [] st).
Proof.
  intros Hidx Hentry Hsize. split_and!.
  - apply for_fold_invariant; [apply left_alone_start|].
    intros st rf. by apply catalog_files_step with (h := h) (e := e).
  - apply for_fold_invariant; [apply left_alone_start|].
    intros st rf. by apply update_locations_step with (h := h) (e := e).
  - apply for_fold_invariant; [apply left_alone_start|].
    intros st rf. by apply find_noncatalog_step with (h := h) (e := e).
Qed.

(** ** Reconciliation: [FindHashByFileAndSize] and its scan *)

Section ReconcileFacts.
Import UpdateCatalogLocations.





Variable env : file_env.
Variable disk : gset string.
Variable catalog : list (string * entry).

Local Abbreviation body :=
  (scan_file env disk catalog (build_catalog_index catalog) (build_catalog_list catalog)).



End ReconcileFacts.

(** [/c/x], catalogued with its size, in a tree that also has [/d/x]. *)
Lemma C7_unchanged_files_are_not_hashed_witness :
  (∃ st, CatalogFiles.scan Examples.copy_env Examples.one_entry []
           Examples.catalogued_walk = Ok st
         ∧ left_alone "/c/x" [] st)
  ∧ (∃ st, UpdateCatalogLocations.scan Examples.copy_env Examples.both_on_disk
             Examples.one_entry Examples.catalogued_walk = Ok st
           ∧ left_alone "/c/x" [] st)
  ∧ (∃ st, FindNoncatalogFiles.scan Examples.copy_env Examples.one_entry
             Examples.catalogued_walk = Ok st
           ∧ left_alone "/c/x" [] st).
Proof.
  apply (C7_unchanged_files_are_not_hashed Examples.copy_env Examples.both_on_disk
           Examples.one_entry [] Examples.catalogued_walk "/c/x" "9a2c"
           {| e_f := "x"; e_p := "/c"; e_s := 5 |});
    vm_compute; reflexivity.
Defined.



(** ** Suffixes of joined paths *)

Section SuffixFacts.

Lemma append_cons (a : ascii) (x y : string) :
  String a x +:+ y = String a (x +:+ y).
Proof. reflexivity. Qed.

Lemma append_empty (y : string) : "" +:+ y = y.
Proof. reflexivity. Qed.

Lemma endswith_cons (a : ascii) (s suf : string) :
  Str.endswith (String a s) suf
  = if decide (String a s = suf) then true else Str.endswith s suf.
Proof. reflexivity. Qed.

Lemma endswith_refl (s : string) : Str.endswith s s = true.
Proof. destruct s; [done|]. rewrite endswith_cons. by rewrite decide_True. Qed.

Lemma endswith_append (pre s suf : string) :
  Str.endswith s suf = true → Str.endswith (pre +:+ s) suf = true.
Proof.
  intros Hs. induction pre as [|a pre IH]; [done|].
  rewrite append_cons, endswith_cons. by case_decide.
Qed.

Lemma count_nonneg (c : ascii) (s : string) : 0 ≤ Str.count c s.
Proof. induction s as [|a s IH]; simpl; [lia|]. case_decide; lia. Qed.

Lemma count_append (c : ascii) (x y : string) :
  Str.count c (x +:+ y) = Str.count c x + Str.count c y.
Proof.
  induction x as [|a x IH]; [done|].
  rewrite append_cons. simpl. rewrite IH. lia.
Qed.

Lemma count_sep_cons (f : string) :
  Str.count OsPath.sep (String OsPath.sep f) = 1 + Str.count OsPath.sep f.
Proof. reflexivity. Qed.

Lemma count_cons_le (c a : ascii) (s : string) :
  Str.count c s ≤ Str.count c (String a s).
Proof. simpl. case_decide; lia. Qed.

(** A suffix without a separator that ends [x + "/" + f] ends [f]. *)
Lemma endswith_through_sep (x f suf : string) :
  Str.count OsPath.sep suf = 0 →
  Str.endswith (x +:+ "/" +:+ f) suf = true →
  Str.endswith f suf = true.
Proof.
  intros Hsuf. induction x as [|a x IH].
  - rewrite append_empty. change ("/" +:+ f) with (String OsPath.sep f).
    rewrite endswith_cons. case_decide as Heq; [|done].
    rewrite <- Heq, count_sep_cons in Hsuf.
    pose proof (count_nonneg OsPath.sep f). lia.
  - rewrite append_cons, endswith_cons. case_decide as Heq; [|done].
    pose proof (count_cons_le OsPath.sep a (x +:+ "/" +:+ f)) as Hle.
    rewrite Heq, Hsuf, count_append in Hle.
    change ("/" +:+ f) with (String OsPath.sep f) in Hle.
    rewrite count_sep_cons in Hle.
    pose proof (count_nonneg OsPath.sep f). pose proof (count_nonneg OsPath.sep x).
    lia.
Qed.

Lemma endswith_sep_split (a : string) :
  Str.endswith a "/" = true → ∃ a', a = a' +:+ "/".
Proof.
  induction a as [|c a IH]; [done|].
  rewrite endswith_cons. case_decide as Heq.
  - intros _. exists "". by rewrite Heq.
  - intros Ha. destruct (IH Ha) as [a' ->]. by exists (String c a').
Qed.

Lemma append_assoc (x y z : string) : (x +:+ y) +:+ z = x +:+ y +:+ z.
Proof. induction x as [|a x IH]; [done|]. rewrite !append_cons. by rewrite IH. Qed.

(** A suffix without a separator that ends [os.path.join(a, b)] ends [b]. *)
Lemma join_endswith (a b suf : string) :
  Str.count OsPath.sep suf = 0 →
  Str.endswith (OsPath.join a b) suf = true →
  Str.endswith b suf = true.
Proof.
  intros Hsuf. unfold OsPath.join.
  destruct (Str.startswith b "/"); [done|].
  case_decide; [done|].
  destruct (Str.endswith a "/") eqn:Hsep.
  - destruct (endswith_sep_split a Hsep) as [a' ->].
    rewrite append_assoc. by apply endswith_through_sep.
  - by apply endswith_through_sep.
Qed.

Lemma join_wip_db (db_path : string) :
  Str.endswith (OsPath.join db_path "wip.db") ".db" = true.
Proof.
  unfold OsPath.join. change (Str.startswith "wip.db" "/") with false. cbn iota.
  case_decide; [done|].
  destruct (Str.endswith db_path "/"); apply endswith_append; done.
Qed.

End SuffixFacts.

(** ** The WIP document survives until the commit step *)

Section WipFacts.
Import CatalogFiles.

Lemma for_fold_preserves {A S : Type} (body : S → A → result S) (P : S → Prop)
    (l : list A) (st st' : S) :
  (∀ st x st', body st x = Ok st' → P st → P st') →
  for_fold body st l = Ok st' → P st → P st'.
Proof.
  intros Hbody. revert st. induction l as [|x l IH]; intros st; simpl.
  - by intros [= <-].
  - destruct (body st x) as [st1|] eqn:Hstep; simpl; [|done].
    intros Hrun Hst. eapply IH; [exact Hrun|]. by eapply Hbody.
Qed.

Lemma ignored_not_db (file : string) :
  Str.endswith_any file ignore_extensions = false → not_db file.
Proof.
  unfold Str.endswith_any, ignore_extensions, not_db. simpl.
  by intros [? _]%orb_false_iff.
Qed.

Lemma fullpath_not_db (a b : string) : not_db b → not_db (OsPath.join a b).
Proof.
  unfold not_db. intros Hb.
  destruct (Str.endswith (OsPath.join a b) ".db") eqn:Hj; [|done].
  apply join_endswith in Hj; [congruence|done].
Qed.

Lemma scan_file_names (env : file_env) (catalog : list (string * entry))
    (idx : list (string * string)) (st st' : scan_state) (rf : string * string) :
  scan_file env catalog idx st rf = Ok st' →
  Forall (λ i, not_db (i_f i)) (new_data st) →
  Forall (λ i, not_db (i_f i)) (new_data st').
Proof.
  destruct rf as [root file]. unfold scan_file.
  destruct (Str.endswith_any file ignore_extensions) eqn:Hign; [by intros [= <-]|].
  destruct (unchanged_in_catalog _ _ _ _) as [[|]|]; simpl; [by intros [= <-]| |done].
  destruct (existsb _ _); [by intros [= <-]|].
  apply ignored_not_db in Hign.
  case_catalog_get; [destruct (same_location _ _)|]; intros [= <-] Hst; simpl;
    try done; (apply Forall_app; split; [done|]); by apply Forall_singleton.
Qed.

Lemma scan_names (env : file_env) (catalog : list (string * entry))
    (wip : list item) (walk : list (string * list string)) (st : scan_state) :
  Forall (λ i, not_db (i_f i)) wip →
  scan env catalog wip walk = Ok st →
  Forall (λ i, not_db (i_f i)) (new_data st).
Proof.
  intros Hwip Hscan. unfold scan in Hscan.
  eapply (for_fold_preserves _ (λ st, Forall (λ i, not_db (i_f i)) (new_data st)));
    [|exact Hscan|done].
  intros st0 rf st1. apply scan_file_names.
Qed.

(** The paths the identification loop hands over are paths of records
    and of catalog entries. *)
Lemma identify_step_paths (flag : bool) (catalog : list (string * entry))
    (disk : gset string) (new_data : list item) (st : group_state) (file : item) :
  Forall (λ he, not_db (e_f (snd he))) catalog →
  Forall (λ i, not_db (i_f i)) new_data →
  not_db (i_f file) →
  Forall not_db (to_be_removed st)
  ∧ Forall (Forall (λ d, not_db (d_fp d))) (duplicates st) →
  Forall not_db (to_be_removed (identify_step flag catalog disk new_data st file))
  ∧ Forall (Forall (λ d, not_db (d_fp d)))
           (duplicates (identify_step flag catalog disk new_data st file)).
Proof.
  intros Hcat Hnew Hfile [Htbr Hdup]. unfold identify_step.
  case_bool_decide; [done|].
  assert (Forall (λ d, not_db (d_fp d))
            (matching_of new_data (i_h file) (dupes st))) as Hmatch.
  { unfold matching_of. apply Forall_map. apply Forall_forall.
    intros i [_ Hi]%list_elem_of_filter. simpl.
    rewrite Forall_forall in Hnew. by apply fullpath_not_db, Hnew. }
  assert (∀ ci,
            (∀ c, ci = Some c → not_db (d_fp c)) →
            Forall not_db (to_be_removed (close_group flag new_data st (i_h file) ci))
            ∧ Forall (Forall (λ d, not_db (d_fp d)))
                (duplicates (close_group flag new_data st (i_h file) ci))) as Hclose.
  { intros ci Hci. unfold close_group.
    destruct (bool_decide _ && bool_decide _); [done|]. simpl. split; [done|].
    apply Forall_app. split; [done|]. apply Forall_singleton.
    apply Forall_app. split; [|done].
    destruct ci as [c|]; [|done]. destruct flag; [|done].
    apply Forall_singleton. by apply Hci. }
  destruct (PyDict.get catalog (i_h file)) as [o|] eqn:Hget.
  - destruct (negb _).
    + simpl. split; [|done]. apply Forall_app. split; [done|].
      apply Forall_singleton. by apply fullpath_not_db.
    + apply Hclose. intros c [= <-]. simpl. apply fullpath_not_db.
      apply get_Some_elem in Hget. rewrite Forall_forall in Hcat.
      by apply (Hcat (i_h file, o)).
  - apply Hclose. by intros c [=].
Qed.

Lemma identify_paths (flag : bool) (catalog : list (string * entry))
    (disk : gset string) (new_data : list item) :
  Forall (λ he, not_db (e_f (snd he))) catalog →
  Forall (λ i, not_db (i_f i)) new_data →
  Forall not_db (to_be_removed (identify_duplicates flag catalog disk new_data))
  ∧ Forall (Forall (λ d, not_db (d_fp d)))
           (duplicates (identify_duplicates flag catalog disk new_data)).
Proof.
  intros Hcat Hnew. unfold identify_duplicates.
  assert (∀ l st,
            Forall (λ i, not_db (i_f i)) l →
            Forall not_db (to_be_removed st)
            ∧ Forall (Forall (λ d, not_db (d_fp d))) (duplicates st) →
            Forall not_db
              (to_be_removed (foldl (identify_step flag catalog disk new_data) st l))
            ∧ Forall (Forall (λ d, not_db (d_fp d)))
                (duplicates (foldl (identify_step flag catalog disk new_data) st l)))
    as Hloop.
  { induction l as [|file l IH]; intros st Hl Hst; [done|].
    apply Forall_cons in Hl as [Hfile Hl]. simpl. apply IH; [done|].
    by apply identify_step_paths. }
  apply Hloop; [done|]. simpl. split; constructor.
Qed.

Lemma for_each_paths (body : dupe → result dupe) (dupes out : list dupe) :
  (∀ d d', body d = Ok d' → d_fp d' = d_fp d) →
  for_each body dupes = Ok out → map d_fp out = map d_fp dupes.
Proof.
  intros Hbody. revert out. induction dupes as [|d dupes IH]; intros out; simpl.
  - by intros [= <-].
  - destruct (body d) as [d'|] eqn:Hd; simpl; [|done].
    destruct (for_each body dupes) as [ds|]; simpl; [|done].
    intros [= <-]. simpl. f_equal; [by eapply Hbody|by apply IH].
Qed.

Lemma imap_paths (g : nat → dupe → dupe) (dupes : list dupe) :
  (∀ i d, d_fp (g i d) = d_fp d) → map d_fp (imap g dupes) = map d_fp dupes.
Proof.
  revert g. induction dupes as [|d dupes IH]; intros g Hg; simpl; [done|].
  f_equal; [apply Hg|]. apply IH. intros i d'. apply Hg.
Qed.

Lemma AnalyzeGroup_paths (fav : list string) (dupes out : list dupe) :
  AnalyzeGroup fav dupes = Ok out → map d_fp out = map d_fp dupes.
Proof.
  unfold AnalyzeGroup.
  destruct (for_each _ dupes) as [scored|] eqn:Hscored; simpl; [|done].
  destruct (highest_from 0 scored 0 0) as [hi|]; simpl; [|done].
  intros [= <-]. unfold mark_removals. rewrite imap_paths by done.
  eapply for_each_paths; [|exact Hscored].
  intros d d' Hd. cbv beta in Hd.
  destruct (score_dupe fav d); simpl in Hd; [|done]. by injection Hd as <-.
Qed.

Lemma AnalyzeDupes_paths (fav : list string) (duplicates out : list (list dupe)) :
  AnalyzeDupes fav duplicates = Ok out →
  map (map d_fp) out = map (map d_fp) duplicates.
Proof.
  unfold AnalyzeDupes. revert out.
  induction duplicates as [|g gs IH]; intros out; simpl.
  - by intros [= <-].
  - destruct (AnalyzeGroup fav g) as [g'|] eqn:Hg; simpl; [|done].
    destruct (for_each (AnalyzeGroup fav) gs) as [gs'|]; simpl; [|done].
    intros [= <-]. simpl. f_equal; [by eapply AnalyzeGroup_paths|by apply IH].
Qed.

Lemma review_paths (n : nat) (keys : list command) (fav fav' : list string)
    (dups dups' : list (list dupe)) :
  review n keys fav dups = Ok (fav', dups') →
  map (map d_fp) dups' = map (map d_fp) dups.
Proof.
  revert fav dups. induction keys as [|key keys IH]; intros fav dups; simpl; [done|].
  destruct key as [r|favored_path|rem_path|r| |].
  - case_decide; [done|]. apply IH.
  - case_decide; [apply IH|].
    destruct (AnalyzeDupes _ dups) as [dups1|] eqn:Ha; simpl; [|done].
    intros Hrev. apply IH in Hrev. rewrite Hrev. by eapply AnalyzeDupes_paths.
  - case_decide; [apply IH|].
    destruct (if decide (rem_path = "(none)") then _ else _) as [fav1|]; simpl; [|done].
    destruct (AnalyzeDupes _ dups) as [dups1|] eqn:Ha; simpl; [|done].
    intros Hrev. apply IH in Hrev. rewrite Hrev. by eapply AnalyzeDupes_paths.
  - case_decide; [apply IH|]. case_decide; [by intros [= <- <-]|apply IH].
  - apply IH.
  - apply IH.
Qed.

Lemma flagged_paths_not_db (dups : list (list dupe)) :
  Forall (Forall (λ d, not_db (d_fp d))) dups → Forall not_db (flagged_paths dups).
Proof.
  unfold flagged_paths. rewrite !Forall_forall. intros Hall p Hp.
  apply list_elem_of_fmap in Hp as (d & -> & Hd).
  apply list_elem_of_filter in Hd as [_ Hd].
  apply list_elem_of_In, in_concat in Hd as (g & Hg & Hd).
  apply list_elem_of_In in Hg. apply list_elem_of_In in Hd.
  specialize (Hall g Hg). rewrite Forall_forall in Hall. by apply Hall.
Qed.

Lemma paths_transport (a b : list (list dupe)) :
  map (map d_fp) a = map (map d_fp) b →
  Forall (Forall (λ d, not_db (d_fp d))) b →
  Forall (Forall (λ d, not_db (d_fp d))) a.
Proof.
  revert b. induction a as [|g a IH]; intros [|g' b]; simpl; try done.
  intros [= Hg Hrest] [Hg' Hb]%Forall_cons. constructor; [|by eapply IH].
  clear -Hg Hg'. revert g' Hg Hg'.
  induction g as [|d g IHg]; intros [|d' g']; simpl; try done.
  intros [= Hd Hg] [Hd' Hg']%Forall_cons. constructor; [by rewrite Hd|by eapply IHg].
Qed.

Lemma delete_files_keeps (tbr : list string) (disk : gset string) (acc : list event)
    (p : string) :
  p ∈ disk → p ∉ tbr → p ∈ fst (foldl delete_one (disk, acc) tbr).
Proof.
  revert disk acc. induction tbr as [|f tbr IH]; intros disk acc Hp Hnot; [done|].
  apply not_elem_of_cons in Hnot as [Hne Hnot]. cbn [foldl].
  unfold delete_one at 2. cbn [fst snd].
  case_bool_decide; apply IH; try done.
  apply elem_of_difference. split; [done|].
  intros Hin%elem_of_singleton. congruence.
Qed.

End WipFacts.

Section WipSurvives.
Import CatalogFiles.

Lemma review_session_not_db (keys : list command) (g : group_state)
    (fav : list string) (dups : list (list dupe)) (tbr : list string) :
  Forall not_db (to_be_removed g) →
  Forall (Forall (λ d, not_db (d_fp d))) (duplicates g) →
  review_session keys g = Ok (fav, dups, tbr) →
  Forall not_db tbr.
Proof.
  intros Htbr Hdup Hrev.
  rewrite (review_session_paths _ _ _ _ _ Hrev).
  apply Forall_app. split; [done|]. apply flagged_paths_not_db.
  unfold review_session in Hrev. case_decide.
  - destruct (AnalyzeDupes [] (duplicates g)) as [analysed|] eqn:Ha;
      simpl in Hrev; [|done].
    destruct (review _ keys [] analysed) as [[fav' dups']|] eqn:Hr;
      simpl in Hrev; [|done].
    destruct (RemoveDupes _ dups'); simpl in Hrev; [|done].
    injection Hrev as <- <- <-.
    apply (paths_transport _ (duplicates g)); [|done].
    rewrite (review_paths _ _ _ _ _ _ Hr). by apply AnalyzeDupes_paths in Ha.
  - by injection Hrev as <- <- <-.
Qed.

Lemma deletion_step_keeps (tbr : list string) (disk disk2 : gset string)
    (answer : string) (removed : list event) (p : string) :
  deletion_step tbr disk answer = Ok (disk2, removed) →
  p ∈ disk → p ∉ tbr → p ∈ disk2.
Proof.
  unfold deletion_step. intros Hdel Hp Hnot. case_decide.
  - destruct (answered_yes answer) as [[|]|]; simpl in Hdel; [| |done].
    + destruct (delete_files tbr disk) as [d r] eqn:Hd.
      injection Hdel as <- _.
      pose proof (delete_files_keeps tbr disk [] p Hp Hnot) as Hkeep.
      unfold delete_files in Hd. by rewrite Hd in Hkeep.
    + by injection Hdel as <- _.
  - by injection Hdel as <- _.
Qed.

End WipSurvives.

(** C10: let the catalog and the WIP document that were loaded hold no
    file name ending in [.db] (the scans never record one), and let the
    run get past the deletion step with no record left to commit.  Then
    the WIP document is still on the disk, and the commit step, whatever
    the answer that is waiting, removes it and does nothing else: no
    question is asked, the catalog is neither changed nor written. *)
Theorem C10_empty_commit_removes_wip (flag : bool) (db_path : string)
    (env : file_env) (catalog : list (string * entry)) (wip : list item)
    (disk : gset string) (inp : CatalogFiles.input) (v : CatalogFiles.reviewed) :
  Forall (λ he, not_db (e_f (snd he))) catalog →
  Forall (λ i, not_db (i_f i)) wip →
  CatalogFiles.up_to_deletion flag (OsPath.join db_path "wip.db") env catalog wip
    disk inp = Ok v →
  CatalogFiles.new_cat_entries_of (CatalogFiles.v_new_data v)
    (CatalogFiles.v_to_be_removed v) = [] →
  OsPath.join db_path "wip.db" ∈ CatalogFiles.v_disk v
  ∧ (∀ answer,
       CatalogFiles.commit_step (OsPath.join db_path "wip.db") catalog
         (CatalogFiles.v_new_data v) (CatalogFiles.v_to_be_removed v)
         (CatalogFiles.v_disk v) answer
       = Ok (catalog, CatalogFiles.v_disk v ∖ {[OsPath.join db_path "wip.db"]},
             [CatalogFiles.RemoveWip]))
  ∧ ∃ run,
      CatalogFiles.main flag (OsPath.join db_path "wip.db") env catalog wip disk inp
        = Ok run
      ∧ CatalogFiles.r_catalog run = catalog
      ∧ CatalogFiles.r_trace run = CatalogFiles.v_trace v ++ [CatalogFiles.RemoveWip]
      ∧ OsPath.join db_path "wip.db" ∉ CatalogFiles.r_disk run.
Proof.
  intros Hcat Hwip Hup Hnone.
  set (wip_db_path := OsPath.join db_path "wip.db") in *.
  assert (wip_db_path ∈ CatalogFiles.v_disk v) as Hthere.
  { unfold CatalogFiles.up_to_deletion in Hup.
    destruct (CatalogFiles.scan env catalog wip _) as [st|] eqn:Hscan;
      simpl in Hup; [|done].
    destruct (CatalogFiles.review_session _ _) as [[[fav dups] tbr]|] eqn:Hrev;
      simpl in Hup; [|done].
    destruct (CatalogFiles.deletion_step tbr _ _) as [[disk2 removed]|] eqn:Hdel;
      simpl in Hup; [|done].
    injection Hup as <-. simpl.
    pose proof (scan_names _ _ _ _ _ Hwip Hscan) as Hnew.
    destruct (identify_paths flag catalog (disk ∪ {[wip_db_path]}) (new_data st)
                Hcat Hnew) as [Htbr Hdup].
    pose proof (review_session_not_db _ _ _ _ _ Htbr Hdup Hrev) as Hsafe.
    eapply deletion_step_keeps; [exact Hdel|set_solver|].
    intros Hin. rewrite Forall_forall in Hsafe. specialize (Hsafe _ Hin).
    unfold not_db, wip_db_path in Hsafe. by rewrite join_wip_db in Hsafe. }
  assert (∀ answer,
            CatalogFiles.commit_step wip_db_path catalog (CatalogFiles.v_new_data v)
              (CatalogFiles.v_to_be_removed v) (CatalogFiles.v_disk v) answer
            = Ok (catalog, CatalogFiles.v_disk v ∖ {[wip_db_path]},
                  [CatalogFiles.RemoveWip])) as Hcommit.
  { intros answer. unfold CatalogFiles.commit_step. rewrite Hnone. simpl.
    unfold CatalogFiles.remove_wip. by rewrite bool_decide_eq_true_2. }
  split; [done|]. split; [done|].
  unfold CatalogFiles.main. rewrite Hup. simpl. rewrite Hcommit. simpl.
  eexists. split; [reflexivity|]. simpl. split_and!; [done..|].
  intros [_ Hout]%elem_of_difference. apply Hout. by apply elem_of_singleton.
Qed.

(** The run on the orphaned copy: its only record is removed. *)
Lemma C10_empty_commit_removes_wip_witness :
  OsPath.join "/home/u" "wip.db" ∈ CatalogFiles.v_disk Examples.orphan_reviewed
  ∧ (∀ answer,
       CatalogFiles.commit_step (OsPath.join "/home/u" "wip.db") Examples.one_entry
         (CatalogFiles.v_new_data Examples.orphan_reviewed)
         (CatalogFiles.v_to_be_removed Examples.orphan_reviewed)
         (CatalogFiles.v_disk Examples.orphan_reviewed) answer
       = Ok (Examples.one_entry,
             CatalogFiles.v_disk Examples.orphan_reviewed
               ∖ {[OsPath.join "/home/u" "wip.db"]},
             [CatalogFiles.RemoveWip]))
  ∧ ∃ run,
      CatalogFiles.main true (OsPath.join "/home/u" "wip.db") Examples.copy_env
        Examples.one_entry [] Examples.original_gone Examples.copy_input = Ok run
      ∧ CatalogFiles.r_catalog run = Examples.one_entry
      ∧ CatalogFiles.r_trace run
        = CatalogFiles.v_trace Examples.orphan_reviewed ++ [CatalogFiles.RemoveWip]
      ∧ OsPath.join "/home/u" "wip.db" ∉ CatalogFiles.r_disk run.
Proof.
  apply (C10_empty_commit_removes_wip true "/home/u" Examples.copy_env
           Examples.one_entry [] Examples.original_gone Examples.copy_input
           Examples.orphan_reviewed).
  - by_evaluation.
  - by_evaluation.
  - vm_compute. reflexivity.
  - vm_compute. reflexivity.
Defined.

(** ** Resolution: which candidate is kept *)

Section ResolutionFacts.
Import CatalogFiles.

(** The search either never moves (no score above the starting value) or
    ends on the first candidate that has the highest score. *)
Lemma highest_from_cases (dupes : list dupe) (i2 : nat) (hs : Z) (hi : nat)
    (hs' : Z) (hi' : nat) :
  highest_from i2 dupes hs hi = Ok (hs', hi') →
  (hs' = hs ∧ hi' = hi ∧ Forall (scored_le hs) dupes)
  ∨ (hs < hs'
     ∧ ∃ k d, hi' = (i2 + k)%nat ∧ dupes !! k = Some d ∧ d_s d = Some hs'
              ∧ Forall (scored_le hs') dupes
              ∧ Forall (scored_lt hs') (take k dupes)).
Proof.
  revert i2 hs hi. induction dupes as [|d rest IH]; intros i2 hs hi; simpl.
  - intros [= <- <-]. left. by split_and!.
  - unfold get_s. destruct (d_s d) as [sc|] eqn:Hsc; simpl; [|done].
    case_decide as Hgt; intros Hrun; apply IH in Hrun.
    + right. destruct Hrun as [(-> & -> & Hall)|(Hlt & k & d' & -> & Hk & Hd' & Hall & Hbefore)].
      * split; [lia|]. exists 0%nat, d. rewrite Nat.add_0_r. split_and!; try done.
        constructor; [|done]. exists sc. split; [done|lia].
      * split; [lia|]. exists (S k), d'. split_and!; try done; [lia| |].
        -- constructor; [|done]. exists sc. split; [done|lia].
        -- simpl. constructor; [|done]. exists sc. split; [done|lia].
    + destruct Hrun as [(-> & -> & Hall)|(Hlt & k & d' & -> & Hk & Hd' & Hall & Hbefore)].
      * left. split_and!; try done. constructor; [|done]. exists sc. split; [done|lia].
      * right. split; [done|]. exists (S k), d'. split_and!; try done; [lia| |].
        -- constructor; [|done]. exists sc. split; [done|lia].
        -- simpl. constructor; [|done]. exists sc. split; [done|lia].
Qed.

Lemma mark_removals_lookup (hi j : nat) (scored : list dupe) (d : dupe) :
  mark_removals hi scored !! j = Some d →
  ∃ d0, scored !! j = Some d0 ∧ d_s d = d_s d0
        ∧ keep d = bool_decide (j = hi).
Proof.
  unfold mark_removals. rewrite list_lookup_imap.
  destruct (scored !! j) as [d0|]; simpl; [|done].
  intros [= <-]. exists d0. split_and!; try done.
  unfold keep. simpl. destruct (Nat.eqb_spec j hi).
  - by rewrite bool_decide_eq_true_2.
  - by rewrite bool_decide_eq_false_2.
Qed.

Lemma imap_Forall (P : dupe → Prop) (f : nat → dupe → dupe) (l : list dupe) :
  (∀ i d, P d → P (f i d)) → Forall P l → Forall P (imap f l).
Proof.
  revert f. induction l as [|d l IH]; intros f Hf Hall; simpl; [done|].
  apply Forall_cons in Hall as [Hd Hall]. constructor; [by apply Hf|].
  apply IH; [|done]. intros i d'. apply Hf.
Qed.

Lemma imap_take (f : nat → dupe → dupe) (k : nat) (l : list dupe) :
  take k (imap f l) = imap f (take k l).
Proof.
  revert f k. induction l as [|d l IH]; intros f [|k]; simpl; try done.
  by rewrite IH.
Qed.

Lemma mark_removals_scores (P : dupe → Prop) (hi : nat) (scored : list dupe) :
  (∀ d b, P d → P (set_r d b)) →
  Forall P scored → Forall P (mark_removals hi scored).
Proof.
  intros HP Hall. unfold mark_removals. apply imap_Forall; [|done].
  intros i d. apply HP.
Qed.

(** What [AnalyzeDupes] does to a group: exactly the candidate at one
    index [hi] is kept.  When some score is positive, [hi] is the first
    position of the highest score; when no score is positive, [hi] is 0
    whatever the scores are. *)
Lemma AnalyzeGroup_resolution (fav : list string) (dupes out : list dupe) :
  AnalyzeGroup fav dupes = Ok out →
  length out = length dupes
  ∧ ∃ hi,
      (∀ j d, out !! j = Some d → keep d = bool_decide (j = hi))
      ∧ ((hi = 0%nat ∧ Forall (scored_le 0) out)
         ∨ (∃ d v, out !! hi = Some d ∧ d_s d = Some v ∧ 0 < v
                   ∧ Forall (scored_le v) out
                   ∧ Forall (scored_lt v) (take hi out))).
Proof.
  unfold AnalyzeGroup.
  destruct (for_each _ dupes) as [scored|] eqn:Hscored; simpl; [|done].
  destruct (highest_from 0 scored 0 0) as [[hs hi]|] eqn:Hhi; simpl; [|done].
  intros [= <-]. split.
  { unfold mark_removals. rewrite length_imap.
    assert (map d_fp scored = map d_fp dupes) as Hfp.
    { eapply for_each_paths; [|done]. intros d d' Hd. cbv beta in Hd.
      destruct (score_dupe fav d); simpl in Hd; [|done]. by injection Hd as <-. }
    apply (f_equal length) in Hfp. by rewrite !length_map in Hfp. }
  exists hi. split.
  { intros j d Hd. by apply mark_removals_lookup in Hd as (d0 & _ & _ & Hk). }
  apply highest_from_cases in Hhi
    as [(-> & -> & Hall)|(Hpos & k & d & -> & Hk & Hd & Hall & Hbefore)].
  - left. split; [done|]. apply mark_removals_scores; [|done].
    intros d b (sc & Hsc & Hle). by exists sc.
  - right. simpl. unfold mark_removals.
    exists (set_r d (negb (Nat.eqb k k))), hs. split_and!; try done.
    + by rewrite list_lookup_imap, Hk.
    + apply (mark_removals_scores (scored_le hs) k); [|done].
      intros d' b (sc & Hsc & Hle). by exists sc.
    + rewrite imap_take. apply (mark_removals_scores (scored_lt hs) k); [|done].
      intros d' b (sc & Hsc & Hle). by exists sc.
Qed.

End ResolutionFacts.

(** ** The commit loop *)

Section CommitFacts.
Import CatalogFiles.

(** First writer wins: an entry that is in the catalog stays as it is. *)
Lemma commit_loop_keeps (catalog : list (string * entry)) (msgs : list event)
    (l : list item) (h : string) (e : entry) :
  PyDict.get catalog h = Some e →
  PyDict.get (fst (foldl commit_one (catalog, msgs) l)) h = Some e.
Proof.
  revert catalog msgs. induction l as [|i l IH]; intros catalog msgs Hget; [done|].
  cbn [foldl]. unfold commit_one at 2. cbn [fst snd]. unfold PyDict.mem.
  destruct (PyDict.get catalog (i_h i)) eqn:Hi; apply IH; [done|].
  rewrite get_set_ne; [done|]. intros Heq. rewrite Heq in Hi. congruence.
Qed.

Lemma commit_entries_keeps (catalog : list (string * entry)) (l : list item)
    (h : string) (e : entry) :
  PyDict.get catalog h = Some e →
  PyDict.get (fst (commit_entries catalog l)) h = Some e.
Proof. apply commit_loop_keeps. Qed.

Lemma commit_loop_count (catalog : list (string * entry)) (msgs : list event)
    (l : list item) :
  (length (fst (foldl commit_one (catalog, msgs) l))
   + length (snd (foldl commit_one (catalog, msgs) l))
   = length catalog + length msgs + length l)%nat.
Proof.
  revert catalog msgs. induction l as [|i l IH]; intros catalog msgs; [simpl; lia|].
  cbn [foldl]. unfold commit_one at 2 4. cbn [fst snd].
  destruct (PyDict.mem catalog (i_h i)) eqn:Hm.
  - rewrite IH, length_app. simpl. lia.
  - rewrite IH, set_length_new; [simpl; lia|].
    unfold PyDict.mem in Hm. by destruct (PyDict.get catalog (i_h i)).
Qed.

(** Every record is either inserted or reported: the number printed as
    "added", [len(new_cat_entries)], is the number of insertions plus the
    number of hashes reported as already present. *)
Lemma commit_entries_count (catalog : list (string * entry)) (l : list item) :
  (length (fst (commit_entries catalog l)) + length (snd (commit_entries catalog l))
   = length catalog + length l)%nat.
Proof.
  unfold commit_entries. rewrite commit_loop_count. simpl. lia.
Qed.

End CommitFacts.

(** * More properties of the scripts *)

(** ** Scoring: what can go wrong, and rescoring *)

Section ScoringMore.
Import CatalogFiles.

(** A candidate whose path ends with a separator has an empty file name,
    and the letters ratio divides by its length: the score raises
    [ZeroDivisionError] exactly then, and is computed otherwise. *)
Theorem score_dupe_zero_division (fav : list string) (d : dupe) :
  (snd (OsPath.split (d_fp d)) = "" → score_dupe fav d = Raise ZeroDivisionError)
  ∧ (snd (OsPath.split (d_fp d)) ≠ "" → ∃ sc, score_dupe fav d = Ok sc).
Proof.
  split.
  - intros Hf. unfold score_dupe.
    destruct (OsPath.split (d_fp d)) as [p f]. simpl in Hf. by subst f.
  - intros Hf. rewrite score_dupe_terms by done. by eexists.
Qed.

Lemma score_dupe_reads (fav : list string) (d d' : dupe) :
  d_fp d' = d_fp d → d_cat d' = d_cat d → score_dupe fav d' = score_dupe fav d.
Proof. intros Hfp Hcat. unfold score_dupe. by rewrite Hfp, Hcat. Qed.

Lemma score_dupe_raises (fav : list string) (d : dupe) (e : exn) :
  score_dupe fav d = Raise e →
  e = ZeroDivisionError ∧ snd (OsPath.split (d_fp d)) = "".
Proof.
  intros Hraise.
  destruct (decide (snd (OsPath.split (d_fp d)) = "")) as [Hf|Hf].
  - destruct (score_dupe_zero_division fav d) as [Hz _].
    rewrite (Hz Hf) in Hraise. by injection Hraise as <-.
  - destruct (score_dupe_zero_division fav d) as [_ Hok].
    destruct (Hok Hf) as [sc Hsc]. congruence.
Qed.

Lemma for_each_scored (fav : list string) (dupes scored : list dupe) :
  for_each (λ d, sc ← score_dupe fav d; Ok (set_s d sc)) dupes = Ok scored →
  Forall (λ d, is_Some (d_s d)) scored.
Proof.
  revert scored. induction dupes as [|d dupes IH]; intros scored; simpl.
  - intros [= <-]. constructor.
  - destruct (score_dupe fav d) as [sc|]; simpl; [|done].
    destruct (for_each _ dupes) as [rest|]; simpl; [|done].
    intros [= <-]. constructor; [by eexists|by apply IH].
Qed.

Lemma highest_from_total (dupes : list dupe) (i2 : nat) (hs : Z) (hi : nat) :
  Forall (λ d, is_Some (d_s d)) dupes →
  ∃ r, highest_from i2 dupes hs hi = Ok r.
Proof.
  intros Hall. revert i2 hs hi.
  induction Hall as [|d dupes [sc Hsc] _ IH]; intros i2 hs hi; simpl; [by eexists|].
  unfold get_s. rewrite Hsc. simpl. case_decide; apply IH.
Qed.

Lemma for_each_raises (fav : list string) (dupes : list dupe) (e : exn) :
  for_each (λ d, sc ← score_dupe fav d; Ok (set_s d sc)) dupes = Raise e →
  e = ZeroDivisionError ∧ Exists (λ d, snd (OsPath.split (d_fp d)) = "") dupes.
Proof.
  induction dupes as [|d dupes IH]; simpl; [done|].
  destruct (score_dupe fav d) as [sc|e'] eqn:Hd; simpl.
  - destruct (for_each _ dupes) as [rest|e'']; simpl; [done|].
    intros [= <-]. destruct (IH eq_refl) as [-> Hex]. split; [done|by right].
  - intros [= <-]. apply score_dupe_raises in Hd as [-> Hf]. split; [done|by left].
Qed.

Lemma for_each_Ok_names (fav : list string) (dupes scored : list dupe) :
  for_each (λ d, sc ← score_dupe fav d; Ok (set_s d sc)) dupes = Ok scored →
  Forall (λ d, snd (OsPath.split (d_fp d)) ≠ "") dupes.
Proof.
  revert scored. induction dupes as [|d dupes IH]; intros scored; simpl.
  - constructor.
  - destruct (score_dupe fav d) as [sc|] eqn:Hd; simpl; [|done].
    destruct (for_each _ dupes) as [rest|]; simpl; [|done].
    intros _. constructor; [|by eapply IH].
    intros Hf. destruct (score_dupe_zero_division fav d) as [Hz _].
    rewrite (Hz Hf) in Hd. done.
Qed.

Lemma AnalyzeGroup_outcome (fav : list string) (dupes : list dupe) :
  (Forall (λ d, snd (OsPath.split (d_fp d)) ≠ "") dupes
   ∧ ∃ out, AnalyzeGroup fav dupes = Ok out)
  ∨ (Exists (λ d, snd (OsPath.split (d_fp d)) = "") dupes
     ∧ AnalyzeGroup fav dupes = Raise ZeroDivisionError).
Proof.
  unfold AnalyzeGroup.
  destruct (for_each _ dupes) as [scored|e] eqn:Hscored; simpl.
  - left. split; [by eapply for_each_Ok_names|].
    destruct (highest_from_total scored 0 0 0 (for_each_scored _ _ _ Hscored))
      as [r ->]. simpl. by eexists.
  - right. apply for_each_raises in Hscored as [-> Hex]. done.
Qed.

(** [AnalyzeDupes] fails in one way only: with [ZeroDivisionError], and
    exactly when some candidate of some group has a path that ends with
    a separator.  Otherwise it returns the rescored groups. *)
Theorem AnalyzeDupes_outcome (fav : list string) (duplicates : list (list dupe)) :
  (Forall (Forall (λ d, snd (OsPath.split (d_fp d)) ≠ "")) duplicates
   ∧ ∃ out, AnalyzeDupes fav duplicates = Ok out)
  ∨ (Exists (Exists (λ d, snd (OsPath.split (d_fp d)) = "")) duplicates
     ∧ AnalyzeDupes fav duplicates = Raise ZeroDivisionError).
Proof.
  unfold AnalyzeDupes. induction duplicates as [|g gs IH]; simpl.
  - left. split; [constructor|by eexists].
  - destruct (AnalyzeGroup_outcome fav g) as [[Hg [out ->]]|[Hg ->]]; simpl.
    + destruct IH as [[Hgs [outs ->]]|[Hgs ->]]; simpl.
      * left. split; [by constructor|by eexists].
      * right. split; [by right|done].
    + right. split; [by left|done].
Qed.

Lemma for_each_reads (fav : list string) (dupes dupes' : list dupe) :
  map d_fp dupes' = map d_fp dupes → map d_cat dupes' = map d_cat dupes →
  result_map (map (λ d, (d_fp d, d_cat d, d_s d)))
    (for_each (λ d, sc ← score_dupe fav d; Ok (set_s d sc)) dupes')
  = result_map (map (λ d, (d_fp d, d_cat d, d_s d)))
      (for_each (λ d, sc ← score_dupe fav d; Ok (set_s d sc)) dupes).
Proof.
  revert dupes'. induction dupes as [|d dupes IH]; intros [|d' dupes']; simpl;
    try done.
  intros [= Hfp Hfps] [= Hcat Hcats].
  rewrite (score_dupe_reads fav d d' Hfp Hcat).
  destruct (score_dupe fav d) as [sc|]; simpl; [|done].
  specialize (IH dupes' Hfps Hcats).
  destruct (for_each _ dupes') as [r'|], (for_each _ dupes) as [r|];
    simpl in *; try done.
  - injection IH as IH. by rewrite IH, Hfp, Hcat.
Qed.

Lemma highest_from_reads (dupes dupes' : list dupe) (i2 : nat) (hs : Z) (hi : nat) :
  map d_s dupes' = map d_s dupes →
  highest_from i2 dupes' hs hi = highest_from i2 dupes hs hi.
Proof.
  revert dupes' i2 hs hi. induction dupes as [|d dupes IH];
    intros [|d' dupes'] i2 hs hi; simpl; try done.
  intros [= Hs Hrest]. unfold get_s. rewrite Hs.
  destruct (d_s d); simpl; [|done]. case_decide; by apply IH.
Qed.

Lemma imap_reads (f : nat → bool) (l l' : list dupe) :
  map (λ d, (d_fp d, d_cat d, d_s d)) l' = map (λ d, (d_fp d, d_cat d, d_s d)) l →
  imap (λ i2 d, set_r d (f i2)) l' = imap (λ i2 d, set_r d (f i2)) l.
Proof.
  revert f l'. induction l as [|d l IH]; intros f [|d' l']; simpl; try done.
  intros [= Hfp Hcat Hs Hrest]. f_equal.
  - unfold set_r. by rewrite Hfp, Hcat, Hs.
  - by apply (IH (f ∘ S)).
Qed.

(** [AnalyzeDupes] reads the path and the catalog flag of a candidate and
    nothing else: groups that agree on those are scored alike. *)
Lemma AnalyzeGroup_reads (fav : list string) (dupes dupes' : list dupe) :
  map d_fp dupes' = map d_fp dupes → map d_cat dupes' = map d_cat dupes →
  AnalyzeGroup fav dupes' = AnalyzeGroup fav dupes.
Proof.
  intros Hfp Hcat. unfold AnalyzeGroup.
  pose proof (for_each_reads fav dupes dupes' Hfp Hcat) as Hscored.
  destruct (for_each _ dupes') as [s'|], (for_each _ dupes) as [s|];
    simpl in *; try done; [|by injection Hscored as ->].
  injection Hscored as Hscored.
  assert (map d_s s' = map d_s s) as Hs.
  { apply (f_equal (map (λ t : string * bool * option Z, snd t))) in Hscored.
    by rewrite !map_map in Hscored. }
  rewrite (highest_from_reads s s' 0 0 0 Hs).
  destruct (highest_from 0 s 0 0) as [hi|]; simpl; [|done].
  f_equal. unfold mark_removals.
  by apply (imap_reads (λ i2, negb (Nat.eqb i2 (snd hi)))).
Qed.

Lemma imap_cats (g : nat → dupe → dupe) (dupes : list dupe) :
  (∀ i d, d_cat (g i d) = d_cat d) → map d_cat (imap g dupes) = map d_cat dupes.
Proof.
  revert g. induction dupes as [|d dupes IH]; intros g Hg; simpl; [done|].
  f_equal; [apply Hg|]. apply IH. intros i d'. apply Hg.
Qed.

Lemma AnalyzeGroup_cats (fav : list string) (dupes out : list dupe) :
  AnalyzeGroup fav dupes = Ok out → map d_cat out = map d_cat dupes.
Proof.
  unfold AnalyzeGroup.
  destruct (for_each _ dupes) as [scored|] eqn:Hscored; simpl; [|done].
  destruct (highest_from 0 scored 0 0) as [hi|]; simpl; [|done].
  intros [= <-]. unfold mark_removals. rewrite imap_cats by done.
  clear -Hscored. revert scored Hscored.
  induction dupes as [|d dupes IH]; intros scored; simpl.
  - by intros [= <-].
  - destruct (score_dupe fav d); simpl; [|done].
    destruct (for_each _ dupes) as [rest|]; simpl; [|done].
    intros [= <-]. simpl. f_equal. by apply IH.
Qed.

(** Rescoring is idempotent: with the favored paths unchanged, a second
    [AnalyzeDupes] gives back the same scores and flags. *)
Theorem AnalyzeDupes_idempotent (fav : list string)
    (duplicates out : list (list dupe)) :
  AnalyzeDupes fav duplicates = Ok out → AnalyzeDupes fav out = Ok out.
Proof.
  unfold AnalyzeDupes. revert out.
  induction duplicates as [|g gs IH]; intros out; simpl.
  - by intros [= <-].
  - destruct (AnalyzeGroup fav g) as [g'|] eqn:Hg; simpl; [|done].
    destruct (for_each (AnalyzeGroup fav) gs) as [gs'|]; simpl; [|done].
    intros [= <-]. simpl.
    rewrite (AnalyzeGroup_reads fav g g'
               (AnalyzeGroup_paths _ _ _ Hg) (AnalyzeGroup_cats _ _ _ Hg)).
    rewrite Hg. simpl. by rewrite (IH gs' eq_refl).
Qed.

End ScoringMore.

(** ** Paths: joining, splitting, and the favored directory *)

Section PathMore.
Import CatalogFiles.

Lemma startswith_sep (b : string) :
  Str.startswith b "/" = true → ∃ b', b = String OsPath.sep b'.
Proof.
  unfold Str.startswith. destruct b as [|c b]; [done|]. cbn -[ascii_dec].
  destruct (ascii_dec "/" c) as [<-|]; [by eexists|done].
Qed.

Lemma cut_last_sep_plain (f : string) :
  Str.count OsPath.sep f = 0 → OsPath.cut_last_sep f = ("", f).
Proof.
  induction f as [|a f IH]; [done|]. intros Hf.
  assert (a ≠ OsPath.sep ∧ Str.count OsPath.sep f = 0) as [Ha Hf'].
  { simpl in Hf. pose proof (count_nonneg OsPath.sep f).
    case_decide; [lia|]. split; [done|lia]. }
  cbn [OsPath.cut_last_sep]. rewrite (IH Hf'). by rewrite decide_False.
Qed.

Lemma cut_last_sep_through (x f : string) :
  Str.count OsPath.sep f = 0 →
  OsPath.cut_last_sep (x +:+ "/" +:+ f) = (x +:+ "/", f).
Proof.
  intros Hf. induction x as [|a x IH].
  - rewrite !append_empty. change ("/" +:+ f) with (String OsPath.sep f).
    cbn [OsPath.cut_last_sep]. rewrite cut_last_sep_plain by done.
    by rewrite decide_True.
  - change (String a x +:+ "/" +:+ f) with (String a (x +:+ "/" +:+ f)).
    change (String a x +:+ "/") with (String a (x +:+ "/")).
    cbn [OsPath.cut_last_sep]. rewrite IH. by destruct x.
Qed.

Lemma split_tail (p : string) : snd (OsPath.split p) = snd (OsPath.cut_last_sep p).
Proof.
  unfold OsPath.split. destruct (OsPath.cut_last_sep p) as [h t].
  by destruct (Str.rstrip OsPath.sep h).
Qed.

(** The file name [AnalyzeDupes] gets back from a full path is the file
    name the path was joined from, whenever that name has no separator. *)
Theorem split_join_name (root file : string) :
  Str.count OsPath.sep file = 0 →
  snd (OsPath.split (OsPath.join root file)) = file.
Proof.
  intros Hfile. rewrite split_tail. unfold OsPath.join.
  destruct (Str.startswith file "/") eqn:Hstart.
  { apply startswith_sep in Hstart as [b' ->]. rewrite count_sep_cons in Hfile.
    pose proof (count_nonneg OsPath.sep b'). lia. }
  case_decide; [by rewrite cut_last_sep_plain|].
  destruct (Str.endswith root "/") eqn:Hsep.
  - destruct (endswith_sep_split root Hsep) as [a' ->].
    by rewrite append_assoc, cut_last_sep_through.
  - by rewrite cut_last_sep_through.
Qed.

Lemma split_nonempty (c : ascii) (s : string) : Str.split c s ≠ [].
Proof. destruct s as [|a s]; simpl; [done|]. case_decide; [done|]. by destruct (Str.split c s). Qed.

Lemma split_cons_sep (s : string) :
  Str.split OsPath.sep (String OsPath.sep s) = "" :: Str.split OsPath.sep s.
Proof. reflexivity. Qed.

Lemma split_cons_other (a : ascii) (s : string) :
  a ≠ OsPath.sep →
  Str.split OsPath.sep (String a s)
  = match Str.split OsPath.sep s with
    | w :: ws => String a w :: ws
    | [] => [String a ""]
    end.
Proof. intros Ha. cbn [Str.split]. by rewrite decide_False. Qed.

Lemma join_cons2 (sep w w' : string) (ws : list string) :
  Str.join sep (w :: w' :: ws) = w +:+ sep +:+ Str.join sep (w' :: ws).
Proof. reflexivity. Qed.

(** ["/".join(s.split("/")) == s]. *)
Lemma join_split (s : string) : Str.join "/" (Str.split OsPath.sep s) = s.
Proof.
  induction s as [|a s IH]; [done|].
  pose proof (split_nonempty OsPath.sep s) as Hne.
  destruct (decide (a = OsPath.sep)) as [->|Ha].
  - rewrite split_cons_sep.
    destruct (Str.split OsPath.sep s) as [|w ws]; [done|].
    by rewrite join_cons2, IH.
  - rewrite split_cons_other by done.
    destruct (Str.split OsPath.sep s) as [|w [|w' ws]]; [done| |].
    + change (Str.join "/" [w]) with w in IH. by rewrite <- IH.
    + rewrite join_cons2 in IH. rewrite join_cons2, <- IH. done.
Qed.

Lemma py_round_ratio_whole (n : Z) : 0 < n → py_round_ratio (n * 100) n = 100.
Proof.
  intros Hn. unfold py_round_ratio.
  rewrite (Z.mul_comm n 100), Z.div_mul, Z.mod_mul by lia.
  by rewrite decide_True by lia.
Qed.

Lemma prefix_fold_at_least (fav chunks : list string) (l : list nat) (c : nat) :
  chunks ≠ [] →
  Forall (λ c', c' < length chunks)%nat l →
  c ∈ l → test_path chunks c ∈ fav →
  py_round_ratio ((Z.of_nat c + 1) * 100) (Z.of_nat (length chunks))
  ≤ foldl (prefix_step fav chunks) 0 l.
Proof.
  intros Hne Hall Hc Hfav. induction Hall as [|c' l Hc' Hall IH].
  { by apply elem_of_nil in Hc. }
  cbn [foldl]. rewrite foldl_prefix_step_acc.
  pose proof (prefix_bonus_bounds_aux fav chunks l Hne Hall) as [Hrest _].
  apply elem_of_cons in Hc as [<-|Hc].
  - replace (prefix_step fav chunks 0 c)
      with (0 + py_round_ratio ((Z.of_nat c + 1) * 100) (Z.of_nat (length chunks)))
      by (unfold prefix_step; by rewrite bool_decide_eq_true_2).
    lia.
  - specialize (IH Hc).
    assert (0 ≤ prefix_step fav chunks 0 c') as Hstep.
    { unfold prefix_step. case_bool_decide; [|lia].
      assert (0 < Z.of_nat (length chunks))
        by (destruct chunks; simpl in *; [done|lia]).
      pose proof (py_round_ratio_bounds ((Z.of_nat c' + 1) * 100)
                    (Z.of_nat (length chunks)) 100 ltac:(lia) ltac:(lia) ltac:(nia)).
      lia. }
    lia.
Qed.

(** "Max of 100 points for matching the entire path": a candidate whose
    directory (a path with one leading separator) is a favored path gets
    the full 100 points of that rule, on top of what shorter favored
    prefixes give. *)
Theorem favored_directory_bonus (fav : list string) (q : string) :
  Str.lstrip OsPath.sep q = q →
  String OsPath.sep q ∈ fav →
  100 ≤ prefix_bonus fav (String OsPath.sep q).
Proof.
  intros Hq Hfav. unfold prefix_bonus.
  assert (path_chunks (String OsPath.sep q) = Str.split OsPath.sep q) as Hchunks.
  { unfold path_chunks.
    change (Str.lstrip OsPath.sep (String OsPath.sep q))
      with (Str.lstrip OsPath.sep q).
    by rewrite Hq. }
  rewrite Hchunks. set (chunks := Str.split OsPath.sep q).
  pose proof (split_nonempty OsPath.sep q) as Hne. fold chunks in Hne.
  assert (0 < length chunks)%nat as Hlen by (destruct chunks; simpl; [done|lia]).
  rewrite <- (py_round_ratio_whole (Z.of_nat (length chunks))) by lia.
  replace (Z.of_nat (length chunks)) with (Z.of_nat (length chunks - 1) + 1) at 1
    by lia.
  apply prefix_fold_at_least; [done| | |].
  - apply Forall_forall. intros c Hc. apply elem_of_seq in Hc. lia.
  - apply elem_of_seq. lia.
  - unfold test_path. replace (S (length chunks - 1)) with (length chunks) by lia.
    rewrite firstn_all. unfold chunks. by rewrite join_split.
Qed.

End PathMore.

(** ** The scan of [catalog_files.py]: resumption and records *)

Section ScanMore.
Import CatalogFiles.
Variable env : file_env.
Variable catalog : list (string * entry).
Variable wip : list item.
Variable walk : list (string * list string).

Lemma existsb_path (l : list item) (fullpath : string) :
  existsb (λ i, bool_decide (item_fullpath i = fullpath)) l = false →
  fullpath ∉ map item_fullpath l.
Proof.
  induction l as [|i l IH]; simpl; [intros _; apply not_elem_of_nil|].
  intros [Hi Hl]%orb_false_iff. apply bool_decide_eq_false in Hi.
  apply not_elem_of_cons. split; [congruence|by apply IH].
Qed.

Lemma existsb_path_found (l : list item) (i : item) :
  i ∈ l → existsb (λ j, bool_decide (item_fullpath j = item_fullpath i)) l = true.
Proof.
  intros Hin. apply existsb_exists. exists i.
  split; [by apply list_elem_of_In|by apply bool_decide_eq_true].
Qed.

Lemma same_location_spec (c : entry) (i : item) :
  same_location c i = true ↔ c = {| e_f := i_f i; e_p := i_p i; e_s := i_s i |}.
Proof.
  unfold same_location. rewrite !andb_true_iff, !bool_decide_eq_true.
  destruct c as [f p s]. simpl. split.
  - by intros [[-> ->] ->].
  - by intros [= -> -> ->].
Qed.

Local Abbreviation scan_inv := (scan_inv env catalog wip walk).

Lemma scan_inv_step (st : scan_state) (rf : string * string) :
  rf ∈ walk_files walk → scan_inv st →
  ∃ st', scan_file env catalog (build_catalog_index catalog) st rf = Ok st'
         ∧ scan_inv st'.
Proof.
  intros Hwalk Hst. destruct rf as [root file]. unfold scan_file.
  destruct (Str.endswith_any file ignore_extensions) eqn:Hign; [by eexists|].
  destruct (unchanged_in_catalog_total catalog (OsPath.join root file)
              (getsize env (OsPath.join root file))) as [b ->]. simpl.
  destruct b; [by eexists|].
  destruct (existsb _ (new_data st)) eqn:Hseen; [by eexists|].
  apply existsb_path in Hseen.
  destruct Hst as (produced & Hnew & Hrec & Hnodup & Hlog & Hfresh).
  rewrite Hnew, map_app in Hseen.
  apply not_elem_of_app in Hseen as [Hseen_wip Hseen_prod].
  set (it := {| i_h := hash_file env (OsPath.join root file); i_f := file;
                i_p := root; i_s := getsize env (OsPath.join root file) |}).
  assert (∀ fp, fp ∈ hashed st ++ [OsPath.join root file] →
            (fp ∉ map item_fullpath wip)
            ∧ ∃ rf, rf ∈ walk_files walk ∧ fp = OsPath.join (fst rf) (snd rf)
                    ∧ Str.endswith_any (snd rf) ignore_extensions = false) as Hlog'.
  { intros fp [Hfp|Hfp]%elem_of_app; [by apply Hlog|].
    apply list_elem_of_singleton in Hfp as ->. split; [done|].
    by exists (root, file). }
  assert (Forall (λ i, scanned_record env walk i ∧ ¬ already_catalogued catalog i
                       ∧ item_fullpath i ∈ hashed st ++ [OsPath.join root file])
            produced) as Hrec'.
  { eapply Forall_impl; [exact Hrec|]. intros i (? & ? & ?).
    split_and!; try done. apply elem_of_app. by left. }
  assert (scan_inv {| new_data := new_data st; renamed := renamed st;
                      hashed := hashed st ++ [OsPath.join root file] |}) as Hsame.
  { exists produced. by split_and!. }
  assert (¬ already_catalogued catalog it →
          scan_inv {| new_data := new_data st ++ [it]; renamed := renamed st;
                      hashed := hashed st ++ [OsPath.join root file] |}) as Hadd.
  { intros Hnot. exists (produced ++ [it]). simpl. split_and!.
    - by rewrite Hnew, app_assoc.
    - apply Forall_app. split; [done|]. apply Forall_singleton.
      split_and!; try done. apply elem_of_app. right. by apply list_elem_of_singleton.
    - rewrite map_app. apply NoDup_app. split_and!; [done| |].
      + intros fp Hfp Hit. simpl in Hit. apply list_elem_of_singleton in Hit.
        subst fp. done.
      + simpl. apply NoDup_singleton.
    - done.
    - apply Forall_app. split; [done|]. by apply Forall_singleton. }
  destruct (PyDict.get catalog (hash_file env (OsPath.join root file)))
    as [c|] eqn:Hget.
  - destruct (same_location c it) eqn:Hloc; eexists; (split; [reflexivity|]);
      [done|].
    apply Hadd. unfold already_catalogued. simpl. rewrite Hget.
    intros [= Hc]. apply (proj2 (same_location_spec c it)) in Hc. congruence.
  - eexists. split; [reflexivity|]. apply Hadd.
    unfold already_catalogued. simpl. by rewrite Hget.
Qed.

Lemma for_fold_invariant_in {A S : Type} (body : S → A → result S) (Inv : S → Prop)
    (l : list A) (st : S) :
  Inv st →
  (∀ st x, x ∈ l → Inv st → ∃ st', body st x = Ok st' ∧ Inv st') →
  ∃ st', for_fold body st l = Ok st' ∧ Inv st'.
Proof.
  revert st. induction l as [|x l IH]; intros st Hst Hbody; simpl; [by eexists|].
  destruct (Hbody st x ltac:(by left) Hst) as (st' & -> & Hst'). simpl.
  apply IH; [done|]. intros st0 y Hy. apply Hbody. by right.
Qed.

Lemma scan_establishes : ∃ st, scan env catalog wip walk = Ok st ∧ scan_inv st.
Proof.
  unfold scan. apply for_fold_invariant_in.
  - exists []. simpl. rewrite app_nil_r.
    split; [done|]. split; [constructor|]. split; [constructor|].
    split; [|constructor]. intros ? Hnil. by apply elem_of_nil in Hnil.
  - intros st rf. apply scan_inv_step.
Qed.

End ScanMore.

(** When the scan of [catalog_files.py] has run to its end, the records
    of the WIP document are still in front of the ones it added, and
    [hash_file] was not called on a path that a WIP record has: an
    interrupted run resumes without rehashing. *)
Theorem scan_resumes (env : file_env) (catalog : list (string * entry))
    (wip : list item) (walk : list (string * list string)) (st : scan_state) :
  CatalogFiles.scan env catalog wip walk = Ok st →
  (∃ produced, new_data st = wip ++ produced)
  ∧ Forall (λ i, item_fullpath i ∉ hashed st) wip.
Proof.
  intros Hrun.
  destruct (scan_establishes env catalog wip walk)
    as (st' & Hscan & produced & Hnew & _ & _ & Hlog & _).
  rewrite Hrun in Hscan. injection Hscan as <-.
  split; [by exists produced|].
  apply Forall_forall. intros i Hi Hin. apply Hlog in Hin as [Hnot _].
  apply Hnot. apply list_elem_of_fmap. by exists i.
Qed.

(** Every record the scan adds is the record of a walked file that is not
    ignored, with the size and the digest of the file at its path, and
    [hash_file] was called on that path; every path it hashed is the path
    of such a walked file. *)
Theorem scan_records_faithful (env : file_env) (catalog : list (string * entry))
    (wip : list item) (walk : list (string * list string)) :
  ∃ st produced,
    CatalogFiles.scan env catalog wip walk = Ok st
    ∧ new_data st = wip ++ produced
    ∧ Forall (λ i, scanned_record env walk i ∧ item_fullpath i ∈ hashed st) produced
    ∧ Forall (λ fp, ∃ rf, rf ∈ walk_files walk ∧ fp = OsPath.join (fst rf) (snd rf)
                          ∧ Str.endswith_any (snd rf) ignore_extensions = false)
             (hashed st).
Proof.
  destruct (scan_establishes env catalog wip walk)
    as (st & Hscan & produced & Hnew & Hrec & _ & Hlog & _).
  exists st, produced. split_and!; try done.
  - eapply Forall_impl; [exact Hrec|]. by intros i (? & _ & ?).
  - apply Forall_forall. intros fp Hfp. by apply Hlog in Hfp as [_ ?].
Qed.

(** A file that the catalog already has under its hash with the same
    name, directory and size is never added to [new_data]. *)
Theorem scan_never_readds (env : file_env) (catalog : list (string * entry))
    (wip : list item) (walk : list (string * list string)) :
  ∃ st produced,
    CatalogFiles.scan env catalog wip walk = Ok st
    ∧ new_data st = wip ++ produced
    ∧ Forall (λ i, ¬ already_catalogued catalog i) produced.
Proof.
  destruct (scan_establishes env catalog wip walk)
    as (st & Hscan & produced & Hnew & Hrec & _).
  exists st, produced. split_and!; try done.
  eapply Forall_impl; [exact Hrec|]. by intros i (_ & ? & _).
Qed.

(** If no two records of the WIP document have the same full path, no two
    records of [new_data] have after the scan: a path is recorded once. *)
Theorem scan_paths_unique (env : file_env) (catalog : list (string * entry))
    (wip : list item) (walk : list (string * list string)) :
  NoDup (map item_fullpath wip) →
  ∃ st, CatalogFiles.scan env catalog wip walk = Ok st
        ∧ NoDup (map item_fullpath (new_data st)).
Proof.
  intros Hwip.
  destruct (scan_establishes env catalog wip walk)
    as (st & Hscan & produced & Hnew & _ & Hnodup & _ & Hfresh).
  exists st. split; [done|]. rewrite Hnew, map_app.
  apply NoDup_app. split_and!; [done| |done].
  intros fp Hfp Hprod. apply list_elem_of_fmap in Hprod as (i & -> & Hi).
  rewrite Forall_forall in Hfresh. by apply (Hfresh i Hi).
Qed.

(** ** The identification loop: what is grouped and what is removed *)

Section GroupingMore.
Import CatalogFiles.

Lemma matching_of_records (new_data : list item) (hash : string) (seen : list string) :
  Forall (λ d, d_cat d = false
               ∧ ∃ i, i ∈ new_data ∧ i_h i = hash ∧ d_fp d = item_fullpath i)
         (matching_of new_data hash seen).
Proof.
  unfold matching_of. apply Forall_map. apply Forall_forall.
  intros i [[Hh _] Hin]%list_elem_of_filter. simpl. split; [done|]. by exists i.
Qed.

Lemma identify_step_provenance (flag : bool) (catalog : list (string * entry))
    (disk : gset string) (new_data : list item) (st : group_state) (file : item) :
  file ∈ new_data →
  Forall (orphaned_copy catalog disk new_data) (to_be_removed st)
  ∧ Forall (group_of_hash catalog disk new_data) (duplicates st) →
  Forall (orphaned_copy catalog disk new_data)
         (to_be_removed (identify_step flag catalog disk new_data st file))
  ∧ Forall (group_of_hash catalog disk new_data)
           (duplicates (identify_step flag catalog disk new_data st file)).
Proof.
  intros Hin [Htbr Hdup]. unfold identify_step.
  case_bool_decide; [done|].
  assert (∀ ci,
            (∀ c, ci = Some c →
                  d_cat c = true
                  ∧ ∃ o, PyDict.get catalog (i_h file) = Some o
                         ∧ d_fp c = entry_fullpath o ∧ d_fp c ∈ disk) →
            Forall (orphaned_copy catalog disk new_data)
              (to_be_removed (close_group flag new_data st (i_h file) ci))
            ∧ Forall (group_of_hash catalog disk new_data)
                (duplicates (close_group flag new_data st (i_h file) ci))) as Hclose.
  { intros ci Hci. unfold close_group.
    destruct (bool_decide _ && bool_decide _); [done|]. simpl. split; [done|].
    apply Forall_app. split; [done|]. apply Forall_singleton.
    exists (i_h file). apply Forall_app. split.
    - destruct ci as [c|]; [|done]. destruct flag; [|done].
      apply Forall_singleton. destruct (Hci c eq_refl) as [-> Ho]. done.
    - eapply Forall_impl; [apply matching_of_records|].
      intros d [-> Hd]. done. }
  destruct (PyDict.get catalog (i_h file)) as [o|] eqn:Hget.
  - destruct (negb _) eqn:Hgone.
    + simpl. split; [|done]. apply Forall_app. split; [done|].
      apply Forall_singleton. exists file, o. split_and!; try done.
      by apply negb_true_iff, bool_decide_eq_false in Hgone.
    + apply negb_false_iff, bool_decide_eq_true in Hgone.
      apply Hclose. intros c [= <-]. simpl. split; [done|]. by exists o.
  - apply Hclose. by intros c [=].
Qed.

Lemma identify_loop_provenance (flag : bool)
    (catalog : list (string * entry)) (disk : gset string) (new_data : list item) :
  Forall (orphaned_copy catalog disk new_data)
         (to_be_removed (identify_duplicates flag catalog disk new_data))
  ∧ Forall (group_of_hash catalog disk new_data)
           (duplicates (identify_duplicates flag catalog disk new_data)).
Proof.
  unfold identify_duplicates.
  assert (∀ l st,
            l ⊆ new_data →
            Forall (orphaned_copy catalog disk new_data) (to_be_removed st)
            ∧ Forall (group_of_hash catalog disk new_data) (duplicates st) →
            Forall (orphaned_copy catalog disk new_data)
              (to_be_removed (foldl (identify_step flag catalog disk new_data) st l))
            ∧ Forall (group_of_hash catalog disk new_data)
                (duplicates (foldl (identify_step flag catalog disk new_data) st l)))
    as Hloop.
  { induction l as [|file l IH]; intros st Hsub Hst; [done|].
    simpl. apply IH; [intros x Hx; apply Hsub; by right|].
    apply identify_step_provenance; [apply Hsub; by left|done]. }
  apply Hloop; [done|]. simpl. split; constructor.
Qed.

(** Every group holds copies of one hash, the catalog's file among them
    only if it is on the disk; every path the loop removes without review
    is a scanned copy of a catalog entry whose own file is gone. *)
Theorem identify_duplicates_provenance (flag : bool)
    (catalog : list (string * entry)) (disk : gset string) (new_data : list item) :
  Forall (orphaned_copy catalog disk new_data)
         (to_be_removed (identify_duplicates flag catalog disk new_data))
  ∧ Forall (group_of_hash catalog disk new_data)
           (duplicates (identify_duplicates flag catalog disk new_data)).
Proof. apply identify_loop_provenance. Qed.

End GroupingMore.

(** ** The removal list and the deletion step *)

Section RemovalMore.
Import CatalogFiles.

Lemma paths_transport_gen (Q : string → Prop) (a b : list (list dupe)) :
  map (map d_fp) a = map (map d_fp) b →
  Forall (Forall (λ d, Q (d_fp d))) b →
  Forall (Forall (λ d, Q (d_fp d))) a.
Proof.
  revert b. induction a as [|g a IH]; intros [|g' b]; simpl; try done.
  intros [= Hg Hrest] [Hg' Hb]%Forall_cons. constructor; [|by eapply IH].
  clear -Hg Hg'. revert g' Hg Hg'.
  induction g as [|d g IHg]; intros [|d' g']; simpl; try done.
  intros [= Hd Hg] [Hd' Hg']%Forall_cons. constructor; [by rewrite Hd|by eapply IHg].
Qed.

Lemma flagged_paths_gen (Q : string → Prop) (dups : list (list dupe)) :
  Forall (Forall (λ d, Q (d_fp d))) dups → Forall Q (flagged_paths dups).
Proof.
  unfold flagged_paths. rewrite !Forall_forall. intros Hall p Hp.
  apply list_elem_of_fmap in Hp as (d & -> & Hd).
  apply list_elem_of_filter in Hd as [_ Hd].
  apply list_elem_of_In, in_concat in Hd as (g & Hg & Hd).
  apply list_elem_of_In in Hg. apply list_elem_of_In in Hd.
  specialize (Hall g Hg). rewrite Forall_forall in Hall. by apply Hall.
Qed.

(** The review changes scores and flags only: the groups keep their
    candidates, in their order. *)
Lemma review_session_groups (keys : list command) (g : group_state)
    (fav : list string) (dups : list (list dupe)) (tbr : list string) :
  review_session keys g = Ok (fav, dups, tbr) →
  map (map d_fp) dups = map (map d_fp) (duplicates g).
Proof.
  unfold review_session. case_decide.
  - destruct (AnalyzeDupes [] (duplicates g)) as [analysed|] eqn:Ha; simpl; [|done].
    destruct (review _ keys [] analysed) as [[fav' dups']|] eqn:Hr; simpl; [|done].
    destruct (RemoveDupes _ dups'); simpl; [|done].
    intros [= <- <- <-].
    rewrite (review_paths _ _ _ _ _ _ Hr). by apply AnalyzeDupes_paths in Ha.
  - by intros [= <- <- <-].
Qed.

Lemma identify_removable (flag : bool) (catalog : list (string * entry))
    (disk : gset string) (new_data : list item) :
  Forall (removable flag catalog new_data)
         (to_be_removed (identify_duplicates flag catalog disk new_data))
  ∧ Forall (Forall (λ d, removable flag catalog new_data (d_fp d)))
           (duplicates (identify_duplicates flag catalog disk new_data)).
Proof.
  destruct (identify_loop_provenance flag catalog disk new_data)
    as [Htbr Hdup].
  assert (Forall (group_shape flag catalog disk new_data)
            (duplicates (identify_duplicates flag catalog disk new_data))) as Hshape.
  { unfold identify_duplicates. apply identify_loop_shape; [done|]. constructor. }
  split.
  - eapply Forall_impl; [exact Htbr|].
    intros p (i & o & Hi & -> & _). left. by exists i.
  - rewrite Forall_forall in Hdup, Hshape. apply Forall_forall. intros g Hg.
    destruct (Hdup g Hg) as [h Hh]. destruct (Hshape g Hg) as (_ & _ & _ & Hoff).
    rewrite Forall_forall in Hh. apply Forall_forall. intros d Hd.
    specialize (Hh d Hd). destruct (d_cat d) eqn:Hcat.
    + destruct Hh as (o & Ho & Hfp & _). right. destruct flag.
      * split; [done|]. exists h, o. by rewrite Hfp.
      * destruct (Hoff eq_refl) as [Hnone _]. unfold cat_origin in Hnone.
        assert (d ∈ filter (λ d, d_cat d = true) g) as Hin
          by (by apply list_elem_of_filter).
        rewrite Hnone in Hin. by apply elem_of_nil in Hin.
    + destruct Hh as (i & Hi & _ & Hfp). left. by exists i.
Qed.

(** Whatever the review does, a path is put on the removal list only if
    it is the path of a scanned record or, when catalog files are not
    protected ([remove_catalog_dupes]), the path of a catalog entry: with
    [ignore-catalog-dupes] only scanned files can be removed. *)
Theorem removal_list_provenance (flag : bool) (wip_db_path : string)
    (env : file_env) (catalog : list (string * entry)) (wip : list item)
    (disk : gset string) (inp : input) (run : run) :
  main flag wip_db_path env catalog wip disk inp = Ok run →
  Forall (removable flag catalog (r_new_data run)) (r_to_be_removed run).
Proof.
  unfold main, up_to_deletion.
  destruct (scan env catalog wip _) as [st|]; simpl; [|done].
  destruct (review_session _ _) as [[[fav dups] tbr]|] eqn:Hrev; simpl; [|done].
  destruct (deletion_step tbr _ _) as [[disk2 removed]|]; simpl; [|done].
  destruct (commit_step _ _ _ _ _ _) as [[[catalog' disk3] msgs]|]; simpl; [|done].
  intros [= <-]. simpl.
  destruct (identify_removable flag catalog (disk ∪ {[wip_db_path]}) (new_data st))
    as [Htbr Hdup].
  rewrite (review_session_paths _ _ _ _ _ Hrev).
  apply Forall_app. split; [done|]. apply flagged_paths_gen.
  eapply paths_transport_gen; [|exact Hdup].
  by eapply review_session_groups.
Qed.





End RemovalMore.

(** ** The commit loop and the path index *)

Section CommitMore.
Import CatalogFiles.

Lemma commit_loop_lookup (catalog : list (string * entry)) (msgs : list event)
    (l : list item) (h : string) :
  PyDict.get (fst (foldl commit_one (catalog, msgs) l)) h
  = match PyDict.get catalog h with
    | Some e => Some e
    | None => (λ ki, entry_of_item (snd ki)) <$> list_find (λ i, i_h i = h) l
    end.
Proof.
  revert catalog msgs. induction l as [|i l IH]; intros catalog msgs.
  - simpl. by destruct (PyDict.get catalog h).
  - cbn [foldl]. unfold commit_one at 2. cbn [fst snd].
    cbn [list_find]. unfold PyDict.mem.
    destruct (PyDict.get catalog (i_h i)) as [e0|] eqn:Hi; rewrite IH.
    + case_decide as Hh.
      * rewrite <- Hh, Hi. done.
      * destruct (PyDict.get catalog h); [done|].
        by destruct (list_find _ l) as [[k j]|].
    + case_decide as Hh.
      * rewrite <- Hh, get_set_eq, Hi. done.
      * rewrite get_set_ne by done.
        destruct (PyDict.get catalog h); [done|].
        by destruct (list_find _ l) as [[k j]|].
Qed.

(** First writer wins: after the commit loop a hash that was in the
    catalog has the entry it had, and a hash that was not has the entry of
    the first committed record with that hash, if there is one. *)
Theorem commit_entries_lookup (catalog : list (string * entry)) (l : list item)
    (h : string) :
  PyDict.get (fst (commit_entries catalog l)) h
  = match PyDict.get catalog h with
    | Some e => Some e
    | None => (λ ki, entry_of_item (snd ki)) <$> list_find (λ i, i_h i = h) l
    end.
Proof. apply commit_loop_lookup. Qed.

Lemma set_keys {V : Type} (d : list (string * V)) (k : string) (v : V) :
  PyDict.keys (PyDict.set d k v)
  = if PyDict.mem d k then PyDict.keys d else PyDict.keys d ++ [k].
Proof.
  unfold PyDict.keys, PyDict.mem. induction d as [|[k0 v0] d IH]; [done|].
  cbn [PyDict.set PyDict.get]. destruct (decide (k0 = k)) as [->|Hk].
  - done.
  - cbn [fmap list_fmap fst]. rewrite IH.
    by destruct (PyDict.get d k).
Qed.

Lemma commit_loop_unique (catalog : list (string * entry)) (msgs : list event)
    (l : list item) :
  NoDup (PyDict.keys catalog) →
  NoDup (PyDict.keys (fst (foldl commit_one (catalog, msgs) l))).
Proof.
  revert catalog msgs. induction l as [|i l IH]; intros catalog msgs Hnodup; [done|].
  cbn [foldl]. unfold commit_one at 2. cbn [fst snd].
  destruct (PyDict.mem catalog (i_h i)) eqn:Hm; apply IH; [done|].
  rewrite set_keys, Hm. apply NoDup_app. split_and!; [done| |apply NoDup_singleton].
  intros k Hk Hin. apply list_elem_of_singleton in Hin as ->.
  apply get_key_is_Some in Hk as [v Hv].
  unfold PyDict.mem in Hm. by rewrite Hv in Hm.
Qed.

(** At most one entry per hash: the commit loop keeps the keys of the
    catalog free of repetitions. *)
Theorem commit_entries_unique_keys (catalog : list (string * entry))
    (l : list item) :
  NoDup (PyDict.keys catalog) →
  NoDup (PyDict.keys (fst (commit_entries catalog l))).
Proof. apply commit_loop_unique. Qed.

Lemma set_keeps_keys {V : Type} (d : list (string * V)) (k k' : string) (v : V) :
  is_Some (PyDict.get d k') → is_Some (PyDict.get (PyDict.set d k v) k').
Proof.
  intros Hk'. destruct (decide (k = k')) as [->|Hne].
  - rewrite get_set_eq. by eexists.
  - by rewrite get_set_ne.
Qed.

Lemma index_loop_correct (catalog l : list (string * entry))
    (idx : list (string * string)) :
  l ⊆ catalog →
  (∀ fp h, (fp, h) ∈ idx → ∃ e, (h, e) ∈ catalog ∧ entry_fullpath e = fp) →
  let idx' := foldl (λ idx he, PyDict.set idx (entry_fullpath (snd he)) (fst he))
                idx l in
  (∀ fp h, (fp, h) ∈ idx' → ∃ e, (h, e) ∈ catalog ∧ entry_fullpath e = fp)
  ∧ (∀ fp, is_Some (PyDict.get idx fp) → is_Some (PyDict.get idx' fp))
  ∧ (∀ h e, (h, e) ∈ l → is_Some (PyDict.get idx' (entry_fullpath e))).
Proof.
  revert idx. induction l as [|[h0 e0] l IH]; intros idx Hsub Hidx; cbn zeta.
  - simpl. split_and!; [done..|]. intros h e Hin. by apply elem_of_nil in Hin.
  - cbn [foldl fst snd].
    destruct (IH (PyDict.set idx (entry_fullpath e0) h0)) as (Hsound & Hkeep & Hall).
    { intros x Hx. apply Hsub. by right. }
    { intros fp h Hin. apply set_elem in Hin as [Hin|[= -> ->]]; [by apply Hidx|].
      exists e0. split; [|done]. apply Hsub. by left. }
    split_and!; [done| |].
    + intros fp Hfp. by apply Hkeep, set_keeps_keys.
    + intros h e [[= -> ->]|Hin]%elem_of_cons; [|by eapply Hall].
      apply Hkeep. rewrite get_set_eq. by eexists.
Qed.

(** The path index is right about the catalog: a path it knows is the
    full path of an entry stored under the hash it gives, and the full
    path of every entry is known to it. *)
Theorem catalog_index_correct (catalog : list (string * entry)) :
  (∀ fp h, PyDict.get (build_catalog_index catalog) fp = Some h →
           ∃ e, (h, e) ∈ catalog ∧ entry_fullpath e = fp)
  ∧ (∀ h e, (h, e) ∈ catalog →
            is_Some (PyDict.get (build_catalog_index catalog) (entry_fullpath e))).
Proof.
  unfold build_catalog_index.
  destruct (index_loop_correct catalog catalog []) as (Hsound & _ & Hall).
  { done. }
  { intros fp h Hin. by apply elem_of_nil in Hin. }
  split; [|done]. intros fp h Hget. apply Hsound. by apply get_Some_elem.
Qed.

End CommitMore.

(** ** The review screen: flat indices and dialogs *)

Section ReviewMore.
Import CatalogFiles ReviewUI.

Lemma CountDupeIndexes_from (duplicates : list (list dupe)) (c : nat) :
  foldl (λ c dupes, (c + length dupes)%nat) c duplicates
  = (c + length (concat duplicates))%nat.
Proof.
  revert c. induction duplicates as [|g gs IH]; intros c; simpl; [lia|].
  rewrite IH, length_app. lia.
Qed.

Lemma CountDupeIndexes_concat (duplicates : list (list dupe)) :
  CountDupeIndexes duplicates = length (concat duplicates).
Proof. unfold CountDupeIndexes. by rewrite CountDupeIndexes_from. Qed.

Lemma DupeIndexTo2D_from_spec (duplicates : list (list dupe)) (i idx : Z) :
  0 ≤ idx →
  (idx < Z.of_nat (length (concat duplicates)) →
   ∃ k i2 g d,
     DupeIndexTo2D_from i duplicates idx = (i + Z.of_nat k, i2)
     ∧ 0 ≤ i2
     ∧ duplicates !! k = Some g ∧ g !! Z.to_nat i2 = Some d
     ∧ concat duplicates !! Z.to_nat idx = Some d)
  ∧ (Z.of_nat (length (concat duplicates)) ≤ idx →
     DupeIndexTo2D_from i duplicates idx = (-1, -1)).
Proof.
  revert i idx. induction duplicates as [|g gs IH]; intros i idx Hidx.
  - simpl. split; [lia|done].
  - cbn [DupeIndexTo2D_from concat]. rewrite length_app. case_decide as Hin.
    + split; [|lia]. intros _.
      destruct (lookup_lt_is_Some_2 g (Z.to_nat idx)) as [d Hd]; [lia|].
      exists 0%nat, idx, g, d. split_and!; try done.
      * f_equal. lia.
      * by rewrite lookup_app_l by lia.
    + destruct (IH (i + 1) (idx - Z.of_nat (length g)) ltac:(lia)) as [Hfound Hout].
      split.
      * intros Hlt. destruct Hfound as (k & i2 & g' & d & Heq & Hi2 & Hg & Hd & Hflat);
          [lia|].
        exists (S k), i2, g', d. split_and!; try done.
        -- rewrite Heq. f_equal. lia.
        -- rewrite lookup_app_r by lia.
           replace (Z.to_nat idx - length g)%nat
             with (Z.to_nat (idx - Z.of_nat (length g))) by lia.
           done.
      * intros Hge. apply Hout. lia.
Qed.

(** [DupeIndexTo2D] turns a flat position below [CountDupeIndexes()] into
    the indices of the candidate at that position of the groups laid end
    to end, and any position from [CountDupeIndexes()] on into
    [(-1, -1)]. *)
Theorem DupeIndexTo2D_flat (duplicates : list (list dupe)) (idx : Z) :
  0 ≤ idx →
  (idx < Z.of_nat (CountDupeIndexes duplicates) →
   ∃ g d,
     0 ≤ fst (DupeIndexTo2D duplicates idx)
     ∧ 0 ≤ snd (DupeIndexTo2D duplicates idx)
     ∧ duplicates !! Z.to_nat (fst (DupeIndexTo2D duplicates idx)) = Some g
     ∧ g !! Z.to_nat (snd (DupeIndexTo2D duplicates idx)) = Some d
     ∧ concat duplicates !! Z.to_nat idx = Some d)
  ∧ (Z.of_nat (CountDupeIndexes duplicates) ≤ idx →
     DupeIndexTo2D duplicates idx = (-1, -1)).
Proof.
  intros Hidx. rewrite CountDupeIndexes_concat. unfold DupeIndexTo2D.
  destruct (DupeIndexTo2D_from_spec duplicates 0 idx Hidx) as [Hfound Hout].
  split; [|done]. intros Hlt.
  destruct (Hfound Hlt) as (k & i2 & g & d & -> & Hi2 & Hg & Hd & Hflat).
  exists g, d. simpl. split_and!; try done; [lia|].
  by replace (Z.to_nat (0 + Z.of_nat k)) with k by lia.
Qed.

Lemma MakeSelection_from_outcome (itemlist : list string) (current_item : nat)
    (keys : list string) :
  (current_item < length itemlist)%nat →
  (∃ r, MakeSelection_from itemlist current_item keys = Ok r
        ∧ (r = "" ∨ r ∈ itemlist))
  ∨ MakeSelection_from itemlist current_item keys = Raise Blocked.
Proof.
  revert current_item. induction keys as [|key keys IH]; intros cur Hcur; simpl.
  - by right.
  - repeat case_decide; try (apply IH; lia).
    + destruct (lookup_lt_is_Some_2 itemlist cur Hcur) as [it Hit].
      rewrite Hit. left. exists it. split; [done|]. right.
      by eapply list_elem_of_lookup_2.
    + left. exists "". split; [done|by left].
Qed.

(** A selection over a list that is not empty ends with one of its items
    (return key) or with the empty string (escape), or is still waiting
    for a key; the cursor never leaves the list, so the item lookup
    cannot fail. *)
Theorem MakeSelection_outcome (itemlist : list string) (keys : list string) :
  itemlist ≠ [] →
  (∃ r, MakeSelection itemlist keys = Ok r ∧ (r = "" ∨ r ∈ itemlist))
  ∨ MakeSelection itemlist keys = Raise Blocked.
Proof.
  intros Hne. apply MakeSelection_from_outcome.
  destruct itemlist; [done|simpl; lia].
Qed.

Lemma list_remove_absent (x : string) (l : list string) :
  x ∉ l → list_remove x l = Raise ValueError.
Proof.
  induction l as [|y l IH]; [done|].
  intros [Hne Hl]%not_elem_of_cons. simpl.
  rewrite decide_False by congruence. by rewrite IH.
Qed.

Lemma list_remove_subset (x : string) (l l' : list string) :
  list_remove x l = Ok l' → l' ⊆ l.
Proof.
  revert l'. induction l as [|y l IH]; intros l'; simpl; [done|].
  case_decide.
  - intros [= <-] z Hz. by right.
  - destruct (list_remove x l) as [l0|]; simpl; [|done].
    intros [= <-] z [->|Hz]%elem_of_cons; [by left|].
    right. by apply (IH l0).
Qed.

(** Escaping the dialog of the key [r] hands the empty string to
    [dr_favored_paths.remove]: the empty string is never a favored path
    (the key [f] appends non-empty input only), so from then on the
    review cannot end normally; unless it was left before, it dies of the
    [ValueError]. *)
Theorem escaped_unfavor_raises (n : nat) (ks rest : list command)
    (fav : list string) (duplicates : list (list dupe)) :
  n ≠ 0%nat →
  "" ∉ fav →
  Forall (λ k, k ≠ KeyDone "Yes") ks →
  ∃ e, review n (ks ++ KeyUnfavor "" :: rest) fav duplicates = Raise e.
Proof.
  intros Hn. revert fav duplicates.
  induction ks as [|k ks IH]; intros fav duplicates Hfav Hks.
  - simpl. rewrite decide_False by done.
    rewrite list_remove_absent by done. by eexists.
  - apply Forall_cons in Hks as [Hk Hks]. cbn [app review].
    destruct k as [r|favored_path|rem_path|r| |].
    + case_decide; [by eexists|]. by apply IH.
    + rewrite decide_False by done.
      destruct (AnalyzeDupes _ duplicates) as [dups1|]; simpl; [|by eexists].
      apply IH; [|done]. case_decide; [done|].
      intros [?|Hin]%elem_of_app; [done|].
      apply list_elem_of_singleton in Hin. congruence.
    + rewrite decide_False by done.
      destruct (if decide (rem_path = "(none)") then _ else _) as [fav1|] eqn:Hrem;
        simpl; [|by eexists].
      destruct (AnalyzeDupes _ duplicates) as [dups1|]; simpl; [|by eexists].
      apply IH; [|done]. case_decide; [by injection Hrem as <-|].
      intros Hin. apply list_remove_subset in Hrem. by apply Hfav, Hrem.
    + rewrite decide_False by done. rewrite decide_False by congruence.
      by apply IH.
    + by apply IH.
    + by apply IH.
Qed.

Lemma list_remove_present (x : string) (l : list string) :
  x ∈ l → ∃ l', list_remove x l = Ok l'.
Proof.
  induction l as [|y l IH]; [by intros ?%elem_of_nil|].
  intros Hx. simpl. case_decide as Hy; [by eexists|].
  apply elem_of_cons in Hx as [->|Hx]; [done|].
  destruct (IH Hx) as [l' ->]. by eexists.
Qed.

(** The dialog of the key [r] and the removal that follows it: whatever
    the dialog returns other than ['(none)'], [dr_favored_paths.remove]
    fails exactly when it is the empty string, that is when the dialog
    was left with escape. *)
Theorem unfavor_dialog_remove (dr_favored_paths : list string) (keys : list string)
    (rem_path : string) :
  "" ∉ dr_favored_paths →
  unfavor_dialog dr_favored_paths keys = Ok rem_path →
  rem_path ≠ "(none)" →
  (rem_path = "" ∧ list_remove rem_path dr_favored_paths = Raise ValueError)
  ∨ (rem_path ∈ dr_favored_paths
     ∧ ∃ rest, list_remove rem_path dr_favored_paths = Ok rest).
Proof.
  intros Hfav Hdialog Hnone. unfold unfavor_dialog, MakeSelection in Hdialog.
  destruct (MakeSelection_from_outcome ("(none)" :: dr_favored_paths) 0 keys)
    as [(r & Hr & Hcases)|Hblocked]; [simpl; lia| |congruence].
  rewrite Hdialog in Hr. injection Hr as <-.
  destruct Hcases as [->|Hin].
  - left. split; [done|]. by apply list_remove_absent.
  - right. apply elem_of_cons in Hin as [->|Hin]; [done|].
    split; [done|]. by apply list_remove_present.
Qed.

End ReviewMore.

(** ** [find_noncatalog_files.py]: renamed or new *)

Section ClassifyMore.
Import FindNoncatalogFiles.
Context (env : file_env) (catalog : list (string * entry))
        (walk : list (string * list string)).

Lemma classify_step (st : scan_state) (root file : string) :
  (root, file) ∈ walk_files walk →
  ∃ st' r n,
    scan_file env catalog (build_catalog_index catalog) st (root, file) = Ok st'
    ∧ renamed st' = renamed st ++ r ∧ new_data st' = new_data st ++ n
    ∧ Forall (λ i, scanned_record env walk i ∧ PyDict.mem catalog (i_h i) = true) r
    ∧ Forall (λ i, scanned_record env walk i ∧ PyDict.mem catalog (i_h i) = false) n
    ∧ (examined env catalog (root, file) →
         ∃ i, i ∈ r ++ n ∧ i_p i = root ∧ i_f i = file).
Proof.
  intros Hrf. unfold scan_file, examined. cbn [fst snd].
  destruct (Str.endswith_any file ignore_extensions) eqn:Hext.
  { exists st, [], []. rewrite !app_nil_r. split_and!; try done. by intros [? _]. }
  destruct (unchanged_in_catalog_total catalog (OsPath.join root file)
              (getsize env (OsPath.join root file))) as [b Hb].
  rewrite Hb. cbn [mbind result_mbind result_bind].
  destruct b.
  { exists st, [], []. rewrite !app_nil_r. split_and!; try done. by intros [_ ?]. }
  set (it := {| i_h := hash_file env (OsPath.join root file); i_f := file;
                i_p := root; i_s := getsize env (OsPath.join root file) |}).
  assert (scanned_record env walk it) as Hrec by done.
  destruct (PyDict.mem catalog (hash_file env (OsPath.join root file))) eqn:Hmem.
  - eexists _, [it], []. rewrite app_nil_r. split_and!; try done.
    + by repeat constructor.
    + intros _. exists it. split; [by left|done].
  - eexists _, [], [it]. rewrite app_nil_r. split_and!; try done.
    + by repeat constructor.
    + intros _. exists it. split; [by left|done].
Qed.

Lemma classify_loop (l : list (string * string)) (st : scan_state) :
  (∀ rf, rf ∈ l → rf ∈ walk_files walk) →
  ∃ st' r n,
    for_fold (scan_file env catalog (build_catalog_index catalog)) st l = Ok st'
    ∧ renamed st' = renamed st ++ r ∧ new_data st' = new_data st ++ n
    ∧ Forall (λ i, scanned_record env walk i ∧ PyDict.mem catalog (i_h i) = true) r
    ∧ Forall (λ i, scanned_record env walk i ∧ PyDict.mem catalog (i_h i) = false) n
    ∧ (∀ rf, rf ∈ l → examined env catalog rf →
         ∃ i, i ∈ r ++ n ∧ i_p i = fst rf ∧ i_f i = snd rf).
Proof.
  revert st. induction l as [|[root file] l IH]; intros st Hl.
  - exists st, [], []. cbn [for_fold]. rewrite !app_nil_r. split_and!; try done.
    intros rf Hrf. by apply elem_of_nil in Hrf.
  - assert (∀ rf, rf ∈ l → rf ∈ walk_files walk) as Hl'
      by (intros rf Hrf; apply Hl; by right).
    destruct (classify_step st root file ltac:(apply Hl; by left))
      as (st1 & r1 & n1 & Hstep & Hr1 & Hn1 & HPr1 & HPn1 & Hex1).
    destruct (IH st1 Hl') as (st' & r2 & n2 & Hrun & Hr2 & Hn2 & HPr2 & HPn2 & Hex2).
    exists st', (r1 ++ r2), (n1 ++ n2). cbn [for_fold]. rewrite Hstep.
    split_and!.
    + exact Hrun.
    + by rewrite Hr2, Hr1, app_assoc.
    + by rewrite Hn2, Hn1, app_assoc.
    + by apply Forall_app.
    + by apply Forall_app.
    + intros rf [->|Hin]%elem_of_cons Hexam.
      * destruct (Hex1 Hexam) as (i & Hi & Hp & Hf). exists i. split; [|done].
        rewrite !elem_of_app. rewrite elem_of_app in Hi. tauto.
      * destruct (Hex2 rf Hin Hexam) as (i & Hi & Hp & Hf). exists i. split; [|done].
        rewrite !elem_of_app. rewrite elem_of_app in Hi. tauto.
Qed.

End ClassifyMore.

(** When the scan of [find_noncatalog_files.py] has run to its end, it
    has sorted what it hashed: a record on [renamed] has a hash that is a
    catalog key, a record on [new_data] has one that is not, both
    describe a walked file as it is on the disk, and every walked file
    that is neither ignored nor unchanged in the catalog has a record on
    one of the two lists. *)
Theorem find_noncatalog_classifies (env : file_env)
    (catalog : list (string * entry)) (walk : list (string * list string))
    (st : scan_state) :
  FindNoncatalogFiles.scan env catalog walk = Ok st →
  Forall (λ i, scanned_record env walk i ∧ PyDict.mem catalog (i_h i) = true)
    (renamed st)
  ∧ Forall (λ i, scanned_record env walk i ∧ PyDict.mem catalog (i_h i) = false)
      (new_data st)
  ∧ (∀ rf, rf ∈ walk_files walk → examined env catalog rf →
       ∃ i, i ∈ renamed st ++ new_data st ∧ i_p i = fst rf ∧ i_f i = snd rf).
Proof.
  unfold FindNoncatalogFiles.scan. intros Hscan.
  destruct (classify_loop env catalog walk (walk_files walk)
              {| new_data := []; renamed := []; hashed := [] |} ltac:(done))
    as (st' & r & n & Hrun & Hr & Hn & HPr & HPn & Hex).
  rewrite Hscan in Hrun. injection Hrun as <-.
  cbn [renamed new_data app] in Hr, Hn. rewrite Hr, Hn. done.
Qed.

(** ** [update_catalog_locations.py]: what is flagged and what is updated *)

Section UpdateMore.
Import UpdateLocations.

Lemma mem_keys {V : Type} (d d' : list (string * V)) (k : string) :
  PyDict.keys d = PyDict.keys d' → PyDict.mem d k = PyDict.mem d' k.
Proof.
  unfold PyDict.keys, PyDict.mem. revert d'.
  induction d as [|[k0 v0] d IH]; intros [|[k1 v1] d']; try done.
  cbn [fmap list_fmap fst PyDict.get]. intros [= -> Hrest].
  case_decide; [done|]. by apply IH.
Qed.

Lemma update_one_keys (df : list string) (acc : list (string * entry) * nat)
    (i : item) :
  PyDict.keys (fst (update_one df acc i)) = PyDict.keys (fst acc).
Proof.
  unfold update_one. case_bool_decide; [|done].
  destruct (PyDict.mem (fst acc) (i_h i)) eqn:Hm; [|done].
  cbn [fst]. by rewrite set_keys, Hm.
Qed.

Lemma update_loop_keys (df : list string) (l : list item)
    (acc : list (string * entry) * nat) :
  PyDict.keys (fst (foldl (update_one df) acc l)) = PyDict.keys (fst acc).
Proof.
  revert acc. induction l as [|i l IH]; intros acc; [done|].
  cbn [foldl]. by rewrite IH, update_one_keys.
Qed.

(** "We are only updating, not adding": whatever was scanned and whatever
    was flagged, the update loop keeps the keys of the catalog, in the
    same order. *)
Lemma update_catalog_keys (catalog : list (string * entry)) (new_data : list item)
    (duplicates_found : list string) :
  PyDict.keys (fst (update_catalog catalog new_data duplicates_found))
  = PyDict.keys catalog.
Proof. unfold update_catalog. by rewrite update_loop_keys. Qed.

Lemma update_loop_lookup (df : list string) (l : list item)
    (acc : list (string * entry) * nat) (h : string) (e : entry) :
  PyDict.get (fst acc) h = Some e →
  PyDict.get (fst (foldl (update_one df) acc l)) h
  = Some (from_option entry_of_item e
            (last (filter (λ i, i_h i = h ∧ item_fullpath i ∉ df) l))).
Proof.
  revert acc e. induction l as [|i l IH]; intros acc e Hget; [done|].
  cbn [foldl]. unfold update_one at 2. case_bool_decide as Hdf.
  - destruct (PyDict.mem (fst acc) (i_h i)) eqn:Hm.
    + destruct (decide (i_h i = h)) as [Hh|Hh].
      * rewrite filter_cons_True by done. rewrite last_cons.
        rewrite (IH _ (entry_of_item i)); [|cbn [fst]; rewrite Hh; apply get_set_eq].
        by destruct (last _).
      * rewrite filter_cons_False by tauto.
        apply IH. cbn [fst]. by rewrite get_set_ne.
    + rewrite filter_cons_False; [by apply IH|].
      intros [Hh _]. unfold PyDict.mem in Hm. rewrite Hh, Hget in Hm. done.
  - rewrite filter_cons_False by tauto. by apply IH.
Qed.

Lemma update_loop_count (df : list string) (catalog : list (string * entry))
    (l : list item) (acc : list (string * entry) * nat) :
  PyDict.keys (fst acc) = PyDict.keys catalog →
  snd (foldl (update_one df) acc l)
  = Nat.add (snd acc)
      (length (filter (λ i, (item_fullpath i ∉ df) ∧ PyDict.mem catalog (i_h i) = true) l)).
Proof.
  revert acc. induction l as [|i l IH]; intros acc Hkeys; [simpl; lia|].
  cbn [foldl]. rewrite IH by (by rewrite update_one_keys).
  unfold update_one. rewrite (mem_keys _ _ _ Hkeys). case_bool_decide as Hdf.
  - destruct (PyDict.mem catalog (i_h i)) eqn:Hm.
    + rewrite filter_cons_True by done. simpl. lia.
    + rewrite filter_cons_False; [done|]. intros [_ ?]. congruence.
  - rewrite filter_cons_False by tauto. done.
Qed.

(** The update loop is "last writer wins": the entry of a catalog hash is
    made from the last scanned record with that hash that was not
    flagged, and is the entry that was read when there is none; the
    number printed counts the unflagged records whose hash is a catalog
    key. *)
Theorem update_catalog_effect (catalog : list (string * entry))
    (new_data : list item) (duplicates_found : list string) :
  snd (update_catalog catalog new_data duplicates_found)
  = length (filter (λ i, (item_fullpath i ∉ duplicates_found)
                         ∧ PyDict.mem catalog (i_h i) = true) new_data)
  ∧ ∀ h e,
      PyDict.get catalog h = Some e →
      PyDict.get (fst (update_catalog catalog new_data duplicates_found)) h
      = Some (from_option entry_of_item e
                (last (filter (λ i, i_h i = h ∧ item_fullpath i ∉ duplicates_found)
                         new_data))).
Proof.
  unfold update_catalog. split.
  - by rewrite (update_loop_count _ catalog).
  - intros h e Hget. by apply update_loop_lookup.
Qed.

Lemma NoDup_map_inj {A B : Type} (f : A → B) (l : list A) (x y : A) :
  NoDup (map f l) → x ∈ l → y ∈ l → f x = f y → x = y.
Proof.
  induction l as [|a l IH]; intros Hnd Hx Hy Hf.
  { by apply elem_of_nil in Hx. }
  cbn [map] in Hnd. apply NoDup_cons in Hnd as [Ha Hnd].
  apply elem_of_cons in Hx as [->|Hx]; apply elem_of_cons in Hy as [->|Hy].
  - done.
  - exfalso. apply Ha. rewrite Hf. by apply (list_elem_of_fmap_2 f).
  - exfalso. apply Ha. rewrite <- Hf. by apply (list_elem_of_fmap_2 f).
  - by apply IH.
Qed.

Lemma filter_ext_elem {A : Type} (P Q : A → Prop)
    `{!∀ x, Decision (P x)} `{!∀ x, Decision (Q x)} (l : list A) :
  (∀ x, x ∈ l → P x ↔ Q x) → filter P l = filter Q l.
Proof.
  induction l as [|a l IH]; intros Hext; [done|].
  assert (filter P l = filter Q l) as Hrest
    by (apply IH; intros x Hx; apply Hext; by right).
  destruct (decide (P a)) as [Ha|Ha].
  - rewrite !filter_cons_True; [by rewrite Hrest| |done].
    apply Hext; [by left|done].
  - rewrite !filter_cons_False; [done| |done].
    intros HQ. apply Ha, Hext; [by left|done].
Qed.

Lemma filter_and_length {A : Type} (P Q : A → Prop)
    `{!∀ x, Decision (P x)} `{!∀ x, Decision (Q x)} (l : list A) :
  (length (filter (λ x, P x ∧ Q x) l) ≤ length (filter P l))%nat.
Proof.
  induction l as [|a l IH]; [done|].
  destruct (decide (P a)) as [Ha|Ha].
  - rewrite (filter_cons_True P) by done.
    destruct (decide (Q a)).
    + rewrite filter_cons_True by done. simpl. lia.
    + rewrite filter_cons_False by tauto. simpl. lia.
  - rewrite (filter_cons_False P) by done. rewrite filter_cons_False by tauto. done.
Qed.

Section FlagLoop.
Context (catalog : list (string * entry)) (all : list item).
Hypothesis paths_unique : NoDup (map item_fullpath all).

Local Abbreviation flagged_after := (flagged_after catalog all).

Lemma flag_step_spec (pre : list item) (df : list string) (file : item) :
  flagged_after pre df →
  flagged_after (pre ++ [file]) (flag_step catalog all df file).
Proof.
  intros Hinv.
  assert (∀ fp, fp ∈ df →
            ∃ i, i ∈ all ∧ item_fullpath i = fp ∧ PyDict.mem catalog (i_h i) = true
                 ∧ i_h i ∈ map i_h (pre ++ [file])
                 ∧ (2 ≤ length (filter (λ j, i_h j = i_h i) all))%nat) as Hweak.
  { intros fp Hfp. apply Hinv in Hfp as (i & ? & ? & ? & Hpre & ?).
    exists i. split_and!; try done. rewrite map_app, elem_of_app. by left. }
  assert (∀ i, i_h i ∈ map i_h (pre ++ [file]) →
               i_h i ∈ map i_h pre ∨ i_h i = i_h file) as Hsplit.
  { intros i. rewrite map_app, elem_of_app. intros [?|Hin]; [by left|].
    right. cbn [map] in Hin. by apply list_elem_of_singleton in Hin. }
  unfold flag_step. destruct (PyDict.mem catalog (i_h file)) eqn:Hmem; cbn [negb].
  2:{ intros fp. split; [apply Hweak|].
      intros (i & Hi & Hfp & Hm & Hpre & Hcount).
      destruct (Hsplit i Hpre) as [Hin|Heq].
      - apply Hinv. by exists i.
      - rewrite Heq in Hm. congruence. }
  set (matching := filter (λ i, i_h i = i_h file ∧ item_fullpath i ∉ df) all).
  case_decide as Hlen.
  - intros fp. split; [apply Hweak|].
    intros (i & Hi & Hfp & Hm & Hpre & Hcount).
    destruct (decide (i_h file ∈ map i_h pre)) as [Hseen|Hnew].
    { apply Hinv. exists i. split_and!; try done.
      destruct (Hsplit i Hpre) as [?|Heq]; [done|by rewrite Heq]. }
    destruct (Hsplit i Hpre) as [Hin|Heq]; [apply Hinv; by exists i|].
    exfalso. rewrite Heq in Hcount.
    assert (matching = filter (λ j, i_h j = i_h file) all) as Hall.
    { apply filter_ext_elem. intros j Hj. split; [by intros [? _]|].
      intros Hh. split; [done|]. intros Hdf.
      apply Hinv in Hdf as (i' & Hi' & Hfp' & _ & Hpre' & _).
      assert (i' = j) as -> by (by eapply NoDup_map_inj).
      rewrite Hh in Hpre'. done. }
    rewrite Hall in Hlen. lia.
  - intros fp. rewrite elem_of_app. split.
    + intros [Hfp|Hfp]; [by apply Hweak|].
      apply list_elem_of_fmap in Hfp as (i & -> & Hi).
      apply list_elem_of_filter in Hi as [[Hh Hdf] Hi].
      exists i. split_and!; try done.
      * by rewrite Hh.
      * rewrite Hh, map_app, elem_of_app. right. cbn [map]. by left.
      * rewrite Hh.
        pose proof (filter_and_length (λ j, i_h j = i_h file)
                      (λ j, item_fullpath j ∉ df) all) as Hle.
        cbv beta in Hle. fold matching in Hle. lia.
    + intros (i & Hi & Hfp & Hm & Hpre & Hcount).
      destruct (Hsplit i Hpre) as [Hin|Heq].
      { left. apply Hinv. by exists i. }
      destruct (decide (fp ∈ df)) as [?|Hdf]; [by left|].
      right. rewrite <- Hfp. apply (list_elem_of_fmap_2 item_fullpath).
      apply list_elem_of_filter. split; [|done]. split; [done|]. by rewrite Hfp.
Qed.

Lemma flag_loop_spec (l pre : list item) (df : list string) :
  flagged_after pre df →
  flagged_after (pre ++ l) (foldl (flag_step catalog all) df l).
Proof.
  revert pre df. induction l as [|file l IH]; intros pre df Hinv.
  - by rewrite app_nil_r.
  - cbn [foldl]. replace (pre ++ file :: l) with ((pre ++ [file]) ++ l)
      by (by rewrite <- app_assoc).
    apply IH. by apply flag_step_spec.
Qed.

Lemma find_duplicates_flagged :
  ∀ fp, fp ∈ find_duplicates catalog all ↔
    ∃ i, i ∈ all ∧ item_fullpath i = fp ∧ PyDict.mem catalog (i_h i) = true
         ∧ (2 ≤ length (filter (λ j, i_h j = i_h i) all))%nat.
Proof.
  assert (flagged_after [] []) as Hinit.
  { intros fp. split; [by intros ?%elem_of_nil|].
    intros (i & _ & _ & _ & Hin & _). by apply elem_of_nil in Hin. }
  pose proof (flag_loop_spec all [] [] Hinit) as Hall. cbn [app] in Hall.
  intros fp. unfold find_duplicates. rewrite (Hall fp). split.
  - intros (i & ? & ? & ? & _ & ?). by exists i.
  - intros (i & Hi & ? & ? & ?). exists i. split_and!; try done.
    by apply (list_elem_of_fmap_2 i_h).
Qed.

End FlagLoop.

(** With every scanned path recorded once, the duplicate check flags
    exactly the records whose hash is a catalog key that another scanned
    record has too. *)
Theorem find_duplicates_spec (catalog : list (string * entry))
    (new_data : list item) (fp : string) :
  NoDup (map item_fullpath new_data) →
  fp ∈ find_duplicates catalog new_data ↔
    ∃ i, i ∈ new_data ∧ item_fullpath i = fp
         ∧ PyDict.mem catalog (i_h i) = true
         ∧ (2 ≤ length (filter (λ j, i_h j = i_h i) new_data))%nat.
Proof. intros Hnd. by apply find_duplicates_flagged. Qed.

Lemma filter_and_nested {A : Type} (P Q : A → Prop)
    `{!∀ x, Decision (P x)} `{!∀ x, Decision (Q x)} (l : list A) :
  filter (λ x, P x ∧ Q x) l = filter Q (filter P l).
Proof.
  induction l as [|a l IH]; [done|].
  destruct (decide (P a)) as [Ha|Ha].
  - rewrite (filter_cons_True P) by done. destruct (decide (Q a)).
    + rewrite !filter_cons_True by done. by rewrite IH.
    + rewrite !filter_cons_False by tauto. done.
  - rewrite (filter_cons_False P) by done. rewrite filter_cons_False by tauto. done.
Qed.

Lemma unflagged_iff_alone (catalog : list (string * entry)) (new_data : list item)
    (i : item) :
  NoDup (map item_fullpath new_data) →
  i ∈ new_data → PyDict.mem catalog (i_h i) = true →
  item_fullpath i ∉ find_duplicates catalog new_data
  ↔ length (filter (λ j, i_h j = i_h i) new_data) = 1%nat.
Proof.
  intros Hnd Hi Hmem.
  assert (1 ≤ length (filter (λ j, i_h j = i_h i) new_data))%nat as Hone.
  { assert (i ∈ filter (λ j, i_h j = i_h i) new_data) as Hin
      by (by apply list_elem_of_filter).
    destruct (filter _ new_data); [by apply elem_of_nil in Hin|simpl; lia]. }
  split.
  - intros Hdf.
    destruct (decide (2 ≤ length (filter (λ j, i_h j = i_h i) new_data))%nat);
      [|lia].
    exfalso. apply Hdf. apply find_duplicates_flagged; [done|]. by exists i.
  - intros Hlen Hdf. apply find_duplicates_flagged in Hdf; [|done].
    destruct Hdf as (i' & Hi' & Hfp & _ & Hcount).
    assert (i' = i) as -> by (by eapply NoDup_map_inj). lia.
Qed.

(** The duplicate check and the update loop together, with every scanned
    path recorded once: a catalog hash that exactly one scanned record
    has gets the name, directory and size of that record; every other
    entry is written back as it was read; and the number printed is the
    number of catalog hashes moved that way. *)
Theorem update_moves_unique_matches (catalog : list (string * entry))
    (new_data : list item) :
  NoDup (map item_fullpath new_data) →
  (∀ h e,
     PyDict.get catalog h = Some e →
     PyDict.get
       (fst (update_catalog catalog new_data (find_duplicates catalog new_data))) h
     = Some (match filter (λ i, i_h i = h) new_data with
             | [i] => entry_of_item i
             | _ => e
             end))
  ∧ snd (update_catalog catalog new_data (find_duplicates catalog new_data))
    = length (filter (λ i, PyDict.mem catalog (i_h i) = true
                           ∧ length (filter (λ j, i_h j = i_h i) new_data) = 1%nat)
                new_data).
Proof.
  intros Hnd. unfold update_catalog. split.
  - intros h e Hget. rewrite (update_loop_lookup _ _ _ h e) by done. f_equal.
    rewrite (filter_and_nested (λ i, i_h i = h)
               (λ i, item_fullpath i ∉ find_duplicates catalog new_data)).
    assert (PyDict.mem catalog h = true) as Hmem
      by (unfold PyDict.mem; by rewrite Hget).
    assert (∀ x, x ∈ filter (λ i, i_h i = h) new_data →
              item_fullpath x ∉ find_duplicates catalog new_data
              ↔ length (filter (λ i, i_h i = h) new_data) = 1%nat) as Halone.
    { intros x [Hh Hx]%list_elem_of_filter. rewrite <- Hh.
      apply unflagged_iff_alone; [done|done|by rewrite Hh]. }
    destruct (filter (λ i, i_h i = h) new_data) as [|i [|j rest]].
    + done.
    + rewrite filter_cons_True; [done|]. apply Halone; [by left|done].
    + rewrite filter_none; [done|].
      apply Forall_forall. intros x Hx Hdf. apply Halone in Hdf; [|done]. done.
  - rewrite (update_loop_count _ catalog) by done. cbn [snd Nat.add].
    f_equal. apply filter_ext_elem. intros i Hi. split.
    + intros [Hdf Hmem]. split; [done|]. by apply (unflagged_iff_alone catalog).
    + intros [Hmem Hlen]. split; [|done]. by apply (unflagged_iff_alone catalog).
Qed.

(** Whenever [update_catalog_locations.py] gets as far as writing the
    catalog, whatever the tree it scanned, the catalog it writes has the
    keys of the catalog it read, in the same order: the script moves
    entries, it neither adds nor drops one. *)
Theorem update_script_keeps_keys (env : file_env) (disk : gset string)
    (catalog : list (string * entry)) (walk : list (string * list string))
    (out : list (string * entry) * nat) :
  UpdateLocations.main env disk catalog walk = Ok out →
  PyDict.keys (fst out) = PyDict.keys catalog.
Proof.
  unfold UpdateLocations.main.
  destruct (UpdateCatalogLocations.scan env disk catalog walk) as [st|];
    simpl; [|done].
  intros [= <-]. apply update_catalog_keys.
Qed.

End UpdateMore.

(** ** The further statements at sample inputs *)

Lemma AnalyzeDupes_idempotent_witness :
  ∃ out,
    CatalogFiles.AnalyzeDupes ["/b"] [[Examples.foo_a; Examples.foo_b]] = Ok out
    ∧ CatalogFiles.AnalyzeDupes ["/b"] out = Ok out.
Proof.
  eexists. split; [vm_compute; reflexivity|].
  apply (AnalyzeDupes_idempotent ["/b"] [[Examples.foo_a; Examples.foo_b]]).
  vm_compute. reflexivity.
Defined.

Lemma split_join_name_witness :
  snd (OsPath.split (OsPath.join "/a" "foo.txt")) = "foo.txt".
Proof. apply (split_join_name "/a" "foo.txt"). vm_compute. reflexivity. Defined.

Lemma favored_directory_bonus_witness :
  100 ≤ CatalogFiles.prefix_bonus ["/a/b"] "/a/b".
Proof.
  apply (favored_directory_bonus ["/a/b"] "a/b").
  - vm_compute. reflexivity.
  - by_evaluation.
Defined.

Lemma scan_paths_unique_witness :
  ∃ st,
    CatalogFiles.scan Examples.copy_env Examples.one_entry [Examples.copy_record]
      Examples.copy_walk = Ok st
    ∧ NoDup (map item_fullpath (new_data st)).
Proof.
  apply (scan_paths_unique Examples.copy_env Examples.one_entry
           [Examples.copy_record] Examples.copy_walk).
  by_evaluation.
Defined.

Lemma removal_list_provenance_witness :
  Forall (removable true Examples.one_entry
            (CatalogFiles.r_new_data Examples.orphan_run))
         (CatalogFiles.r_to_be_removed Examples.orphan_run).
Proof.
  apply (removal_list_provenance true Examples.wip_db_path Examples.copy_env
           Examples.one_entry [] Examples.original_gone Examples.copy_input
           Examples.orphan_run).
  vm_compute. reflexivity.
Defined.

Lemma DupeIndexTo2D_flat_witness :
  (2 < Z.of_nat (CatalogFiles.CountDupeIndexes Samples.two_groups) →
   ∃ g d,
     0 ≤ fst (ReviewUI.DupeIndexTo2D Samples.two_groups 2)
     ∧ 0 ≤ snd (ReviewUI.DupeIndexTo2D Samples.two_groups 2)
     ∧ Samples.two_groups !! Z.to_nat (fst (ReviewUI.DupeIndexTo2D Samples.two_groups 2))
       = Some g
     ∧ g !! Z.to_nat (snd (ReviewUI.DupeIndexTo2D Samples.two_groups 2)) = Some d
     ∧ concat Samples.two_groups !! Z.to_nat 2 = Some d)
  ∧ (Z.of_nat (CatalogFiles.CountDupeIndexes Samples.two_groups) ≤ 2 →
     ReviewUI.DupeIndexTo2D Samples.two_groups 2 = (-1, -1)).
Proof. apply (DupeIndexTo2D_flat Samples.two_groups 2). lia. Defined.

Lemma MakeSelection_outcome_witness :
  (∃ r, ReviewUI.MakeSelection ["Yes"; "No"] ["down"; Samples.key_return] = Ok r
        ∧ (r = "" ∨ r ∈ ["Yes"; "No"]))
  ∨ ReviewUI.MakeSelection ["Yes"; "No"] ["down"; Samples.key_return] = Raise Blocked.
Proof.
  apply (MakeSelection_outcome ["Yes"; "No"] ["down"; Samples.key_return]).
  discriminate.
Defined.

Lemma escaped_unfavor_raises_witness :
  ∃ e,
    CatalogFiles.review 2
      ([CatalogFiles.KeyFavor "/b"]
       ++ CatalogFiles.KeyUnfavor "" :: [CatalogFiles.KeyDone "Yes"])
      [] [[Examples.foo_a; Examples.foo_b]] = Raise e.
Proof.
  apply (escaped_unfavor_raises 2 [CatalogFiles.KeyFavor "/b"]
           [CatalogFiles.KeyDone "Yes"] [] [[Examples.foo_a; Examples.foo_b]]).
  - lia.
  - by_evaluation.
  - repeat constructor. discriminate.
Defined.

Lemma unfavor_dialog_remove_witness :
  ("" = "" ∧ CatalogFiles.list_remove "" ["/b"] = Raise ValueError)
  ∨ ("" ∈ ["/b"] ∧ ∃ rest, CatalogFiles.list_remove "" ["/b"] = Ok rest).
Proof.
  apply (unfavor_dialog_remove ["/b"] ["esc"] "").
  - by_evaluation.
  - vm_compute. reflexivity.
  - discriminate.
Defined.

Lemma find_duplicates_spec_witness :
  "/d/x" ∈ UpdateLocations.find_duplicates Examples.one_entry
             [Examples.copy_record; Samples.second_copy]
  ↔ ∃ i, i ∈ [Examples.copy_record; Samples.second_copy]
         ∧ item_fullpath i = "/d/x"
         ∧ PyDict.mem Examples.one_entry (i_h i) = true
         ∧ (2 ≤ length (filter (λ j, i_h j = i_h i)
                          [Examples.copy_record; Samples.second_copy]))%nat.
Proof.
  apply (find_duplicates_spec Examples.one_entry
           [Examples.copy_record; Samples.second_copy] "/d/x").
  by_evaluation.
Defined.

Lemma update_moves_unique_matches_witness :
  (∀ h e,
     PyDict.get Examples.two_of_a_size h = Some e →
     PyDict.get
       (fst (UpdateLocations.update_catalog Examples.two_of_a_size
               [Samples.moved_record]
               (UpdateLocations.find_duplicates Examples.two_of_a_size
                  [Samples.moved_record]))) h
     = Some (match filter (λ i, i_h i = h) [Samples.moved_record] with
             | [i] => entry_of_item i
             | _ => e
             end))
  ∧ snd (UpdateLocations.update_catalog Examples.two_of_a_size
           [Samples.moved_record]
           (UpdateLocations.find_duplicates Examples.two_of_a_size
              [Samples.moved_record]))
    = length (filter (λ i, PyDict.mem Examples.two_of_a_size (i_h i) = true
                           ∧ length (filter (λ j, i_h j = i_h i)
                                       [Samples.moved_record]) = 1%nat)
                [Samples.moved_record]).
Proof.
  apply (update_moves_unique_matches Examples.two_of_a_size [Samples.moved_record]).
  by_evaluation.
Defined.

Lemma scan_resumes_witness :
  (∃ produced,
     new_data {| new_data := [Examples.copy_record]; renamed := []; hashed := [] |}
     = [Examples.copy_record] ++ produced)
  ∧ Forall (λ i, item_fullpath i
                 ∉ hashed {| new_data := [Examples.copy_record]; renamed := [];
                             hashed := [] |})
      [Examples.copy_record].
Proof.
  apply (scan_resumes Examples.copy_env Examples.one_entry [Examples.copy_record]
           Examples.copy_walk).
  vm_compute. reflexivity.
Defined.

Lemma find_noncatalog_classifies_witness :
  Forall (λ i, scanned_record Examples.copy_env Examples.copy_walk i
               ∧ PyDict.mem Examples.one_entry (i_h i) = true)
    (renamed {| new_data := []; renamed := [Examples.copy_record];
                hashed := ["/d/x"] |})
  ∧ Forall (λ i, scanned_record Examples.copy_env Examples.copy_walk i
                 ∧ PyDict.mem Examples.one_entry (i_h i) = false)
      (new_data {| new_data := []; renamed := [Examples.copy_record];
                   hashed := ["/d/x"] |})
  ∧ (∀ rf, rf ∈ walk_files Examples.copy_walk →
       examined Examples.copy_env Examples.one_entry rf →
       ∃ i, i ∈ renamed {| new_data := []; renamed := [Examples.copy_record];
                           hashed := ["/d/x"] |}
              ++ new_data {| new_data := []; renamed := [Examples.copy_record];
                             hashed := ["/d/x"] |}
            ∧ i_p i = fst rf ∧ i_f i = snd rf).
Proof.
  apply (find_noncatalog_classifies Examples.copy_env Examples.one_entry
           Examples.copy_walk).
  vm_compute. reflexivity.
Defined.

Lemma update_script_keeps_keys_witness :
  PyDict.keys
    (fst ([("a1b2", {| e_f := "x"; e_p := "/d"; e_s := 5 |});
          ("c3d4", {| e_f := "y"; e_p := "/c"; e_s := 5 |})], 1%nat))
  = PyDict.keys Examples.two_of_a_size.
Proof.
  apply (update_script_keeps_keys Examples.copy_env Examples.moved_disk
           Examples.two_of_a_size Examples.copy_walk).
  vm_compute. reflexivity.
Defined.
